(** * The request pipeline of the client API server

    A shallow embedding of the bootstrap file of the server (the file that
    builds the Express application): the origin whitelist read at startup,
    the CORS header and origin-guard middlewares, the recursive body
    sanitizer, and the order in which the application registers its
    middlewares.

    Conventions.
    - A JavaScript string is the list of its UTF-16 code units ([jsstring]).
    - JavaScript objects and arrays live in a store ([heap]); a value of
      object type is a reference into it, so that in-place updates and
      aliasing are visible.
    - Packages the file imports (body-parser, helmet, validator,
      dompurify, ...) and the modules of the repository it only calls
      (router, appVersionValidator, logErrors, ...) are parameters.
    - The [cors] package decides which of the file's own CORS middlewares
      a request comes to at all; it is modelled after its source
      (cors 2.8, [lib/index.js], and the [vary] package it calls). *)

From Stdlib Require Import String Ascii NArith ZArith Bool Lia DecimalString.
From stdpp Require Import base decidable option list.

#[local] Set Warnings "-register-all".

Local Open Scope N_scope.
Local Open Scope nat_scope.

(** ** Strings *)

(** A JavaScript string: its sequence of UTF-16 code units. *)
Abbreviation jsstring := (list N).

(** The code units of a literal of the source text. *)
Fixpoint str (s : string) : jsstring :=
  match s with
  | EmptyString => []
  | String a r => N_of_ascii a :: str r
  end.

(** JavaScript truthiness of a string: only the empty string is falsy. *)
Definition truthy_str (s : jsstring) : bool :=
  match s with [] => false | _ :: _ => true end.

(** Truthiness of a value that is a string or [undefined]. *)
Definition truthy_opt (o : option jsstring) : bool :=
  match o with None => false | Some s => truthy_str s end.

(** [WhiteSpace] and [LineTerminator] code units of ECMAScript, the ones
    [String.prototype.trim] strips. *)
Definition js_whitespace (c : N) : bool :=
  ((9 <=? c) && (c <=? 13) || (c =? 32) || (c =? 160) || (c =? 5760)
   || (8192 <=? c) && (c <=? 8202) || (c =? 8232) || (c =? 8233)
   || (c =? 8239) || (c =? 8287) || (c =? 12288) || (c =? 65279))%N.

Fixpoint trim_start (s : jsstring) : jsstring :=
  match s with
  | c :: r => if js_whitespace c then trim_start r else s
  | [] => []
  end.

Definition trim_end (s : jsstring) : jsstring := reverse (trim_start (reverse s)).

(** [String.prototype.trim]. *)
Definition js_trim (s : jsstring) : jsstring := trim_end (trim_start s).

(** [String.prototype.split] with a one-code-unit separator: the pieces
    between the occurrences of [sep], always at least one piece. *)
Fixpoint js_split (sep : N) (s : jsstring) : list jsstring :=
  match s with
  | [] => [[]]
  | c :: r =>
      if (c =? sep)%N then [] :: js_split sep r
      else match js_split sep r with
           | piece :: pieces => (c :: piece) :: pieces
           | [] => [[c]]
           end
  end.

(** [Array.prototype.join] with a one-code-unit separator. *)
Fixpoint js_join (sep : N) (pieces : list jsstring) : jsstring :=
  match pieces with
  | [] => []
  | [p] => p
  | p :: r => p ++ sep :: js_join sep r
  end.

(** A string neither starts nor ends with a whitespace code unit. *)
Definition trimmed (s : jsstring) : Prop :=
  (forall c, head s = Some c -> js_whitespace c = false)
  /\ (forall c, last s = Some c -> js_whitespace c = false).

(** [Array.prototype.includes] on an array of strings. *)
Definition includes (arr : list jsstring) (s : jsstring) : bool :=
  bool_decide (s ∈ arr).

(** ** Values and the store *)

Abbreviation loc := nat.

(** A JavaScript number, as the bit pattern of its IEEE-754 double; the
    bootstrap file never computes with one. *)
Abbreviation number := Z.

Inductive value :=
| VUndefined
| VNull
| VBool (b : bool)
| VNum (n : number)
| VStr (s : jsstring)
| VRef (l : loc).

(** An object of the store: an array with its elements, or a plain object
    with its own enumerable properties in the order [for ... in] reports
    them, followed by the names of the enumerable properties [for ... in]
    reports from its prototype chain (none for what [JSON.parse] builds). *)
Inductive object :=
| OArray (elems : list value)
| OPlain (own : list (jsstring * value)) (inherited : list jsstring).

Abbreviation heap := (list object).

(** The exceptions of the file, and [Dangling] for a reference to no
    object of the store, which no JavaScript program holds. *)
Inductive js_error :=
| TypeError (msg : jsstring)
| RangeError (msg : jsstring)
| Error (msg : jsstring)
| Dangling (l : loc).

(** The result of running code on the store: what it returns, with the new
    store, or a thrown exception and the store as the throw leaves it. *)
Inductive outcome (A : Type) :=
| Ok (a : A)
| Throw (h : heap) (e : js_error).
Arguments Ok {A} a.
Arguments Throw {A} h e.

#[global] Instance outcome_bind : MBind outcome := fun A B k m =>
  match m with
  | Ok a => k a
  | Throw h e => Throw h e
  end.

(** Own property lookup, [input[key]] on an own key. *)
Fixpoint get_own (key : jsstring) (own : list (jsstring * value)) : option value :=
  match own with
  | [] => None
  | (k, v) :: r => if bool_decide (k = key) then Some v else get_own key r
  end.

(** Assignment to an existing own property, [input[key] = v]. *)
Fixpoint set_own (key : jsstring) (v : value) (own : list (jsstring * value))
  : list (jsstring * value) :=
  match own with
  | [] => []
  | (k, w) :: r =>
      if bool_decide (k = key) then (k, v) :: r else (k, w) :: set_own key v r
  end.

Definition has_own (key : jsstring) (own : list (jsstring * value)) : bool :=
  bool_decide (is_Some (get_own key own)).

(** ** The string packages *)

(** The functions of the packages [validator] and [dompurify] that the
    sanitizer calls. *)
Record string_lib := StringLib {
  validator_trim : jsstring -> jsstring;
  (** [validator.isURL(s, { require_protocol: true })] *)
  validator_isURL : jsstring -> bool;
  (** [purify.sanitize(s)], [purify] being DOMPurify on a JSDOM window *)
  purify_sanitize : jsstring -> jsstring
}.

Section Sanitizer.

Context (lib : string_lib).

Definition customEscape (v : value) : value :=
  match v with
  | VStr s =>
      if validator_isURL lib s then v
      else v
  | _ => v
  end.

(** [input.map(f)]: the callback runs on the elements from left to
    right, each call on the store the previous one left. *)
Fixpoint array_map (f : heap -> value -> outcome (heap * value)) (h : heap)
    (elems : list value) : outcome (heap * list value) :=
  match elems with
  | [] => Ok (h, [])
  | v :: r =>
      '(h1, v') ← f h v;
      '(h2, r') ← array_map f h1 r;
      Ok (h2, v' :: r')
  end.

(** The message of the [TypeError] of a call to a property that is not a
    function. *)
Definition not_a_function : jsstring := str "input.hasOwnProperty is not a function".

(** The body of the [for (let key in input)] loop of [sanitize], for the
    object at [l] and the keys still to visit.  [input.hasOwnProperty]
    is looked up on the object first: an own property of that name hides
    the method of [Object.prototype], and calling it throws. *)
Fixpoint for_in (f : heap -> value -> outcome (heap * value)) (l : loc) (h : heap)
    (keys : list jsstring) : outcome heap :=
  match keys with
  | [] => Ok h
  | key :: r =>
      match h !! l with
      | Some (OPlain own inh) =>
          if has_own (str "hasOwnProperty") own then
            Throw h (TypeError not_a_function)
          else if has_own key own then
            match get_own key own with
            | Some v =>
                '(h1, v') ← f h v;
                match h1 !! l with
                | Some (OPlain own1 inh1) =>
                    for_in f l (<[l := OPlain (set_own key v' own1) inh1]> h1) r
                | _ => Throw h1 (Dangling l)
                end
            | None => for_in f l h r
            end
          else for_in f l h r
      | _ => Throw h (Dangling l)
      end
  end.

(** The message of the [RangeError] of an exhausted call stack. *)
Definition stack_exceeded : jsstring := str "Maximum call stack size exceeded".

(** [sanitize(input)].  [depth] is the number of nested calls the call
    stack still has room for.  The string branch hands to the purifier
    what [customEscape] returns.  [input.map] puts its result in a new
    array, here at the first free location of the store.  A reference to
    no object of the store does not occur in a JavaScript program; the
    model stops on one. *)
Fixpoint sanitize (depth : nat) (h : heap) (input : value) : outcome (heap * value) :=
  match depth with
  | 0 => Throw h (RangeError stack_exceeded)
  | S depth' =>
      match input with
      | VStr s =>
          let input := VStr (validator_trim lib s) in
          let input := customEscape input in
          match input with
          | VStr s' => Ok (h, VStr (purify_sanitize lib s'))
          | _ => Ok (h, input)
          end
      | VRef l =>
          match h !! l with
          | Some (OArray elems) =>
              '(h1, elems') ← array_map (sanitize depth') h elems;
              Ok (h1 ++ [OArray elems'], VRef (length h1))
          | Some (OPlain own inh) =>
              h1 ← for_in (sanitize depth') l h (own.*1 ++ inh);
              Ok (h1, input)
          | None => Throw h (Dangling l)
          end
      | _ => Ok (h, input)
      end
  end.

End Sanitizer.

Definition has_unit (c : N) (s : jsstring) : bool := bool_decide (c ∈ s).

Definition ascii_letter (c : N) : bool :=
  ((65 <=? c) && (c <=? 90) || (97 <=? c) && (c <=? 122))%N.

(** In HTML a [<] opens a tag, a comment or a declaration when a letter,
    [/], [!] or [?] follows it; any other [<] is text. *)
Definition opens_tag (c : N) : bool :=
  ascii_letter c || (c =? 47)%N || (c =? 33)%N || (c =? 63)%N.

(** A string without markup: none of its [<] opens a tag. *)
Fixpoint tag_free (s : jsstring) : bool :=
  match s with
  | [] => true
  | c :: r =>
      negb ((c =? 60)%N && match r with d :: _ => opens_tag d | [] => false end)
      && tag_free r
  end.

(** Text as HTML writes it: [<] and [>] become [&lt;] and [&gt;]. *)
Fixpoint escape_text (s : jsstring) : jsstring :=
  match s with
  | [] => []
  | c :: r =>
      (if (c =? 60)%N then str "&lt;"
       else if (c =? 62)%N then str "&gt;"
       else [c]) ++ escape_text r
  end.

Definition printable (c : N) : bool := ((32 <=? c) && (c <=? 126))%N.

(** What DOMPurify returns where that does not take an HTML parser to
    tell: a string without [<] as it is (the package returns at once when
    [dirty.indexOf('<') === -1]), and printable ASCII text without [&]
    none of whose [<] opens a tag as HTML writes that text.  On any other
    string this stand-in returns the empty string, where the package keeps
    the markup it allows. *)
Definition purify_text (s : jsstring) : jsstring :=
  if negb (has_unit 60%N s) then s
  else if tag_free s && forallb printable s && negb (has_unit 38%N s)
       then escape_text s
       else [].

Fixpoint starts_with (p s : jsstring) : bool :=
  match p, s with
  | [], _ => true
  | a :: p', b :: s' => (a =? b)%N && starts_with p' s'
  | _ :: _, [] => false
  end.

(** A stand-in for the string packages, to run the definitions on: trimming
    by [js_trim], a URL test that asks for a scheme and rejects blanks and
    angle brackets, and [purify_text] for the purifier. *)
Definition plain_lib : string_lib :=
  {| validator_trim := js_trim;
     validator_isURL := fun s =>
       (starts_with (str "https://") s || starts_with (str "http://") s)
       && negb (existsb js_whitespace s)
       && negb (has_unit 60%N s) && negb (has_unit 62%N s);
     purify_sanitize := purify_text |}.


(** ** Startup: the environment and the whitelist *)

(** The variables of [process.env] the file reads, after
    [loadEnvVariables()]; an unset variable reads as [undefined]. *)
Record environment := Environment {
  CORS_WHITELIST_URLS : option jsstring;
  PORT : option jsstring
}.

(** [process.env.CORS_WHITELIST_URLS.split(',').map(url => url.trim())] *)
Definition parse_whitelist (urls : jsstring) : list jsstring :=
  js_trim <$> js_split 44%N urls.

(** [process.env.PORT || 8080] *)
Definition port_of (env : environment) : jsstring + N :=
  match PORT env with
  | Some p => if truthy_str p then inl p else inr 8080%N
  | None => inr 8080%N
  end.

(** What the module leaves behind once it has run: an uncaught exception
    (the process exits), or the application with its whitelist and, when
    the database connection succeeded, the port it listens on. *)
Inductive boot :=
| Crashed (e : js_error)
| Booted (whitelist : list jsstring) (listening : option (jsstring + N)).

Definition not_set : jsstring :=
  str "CORS_WHITELIST_URLS environment variable is not set".

(** The top level of the module from the whitelist check on;
    [db_connected] tells whether the promise of [dbConnect()] resolves. *)
Definition startup (env : environment) (db_connected : bool) : boot :=
  if negb (truthy_opt (CORS_WHITELIST_URLS env)) then Crashed (Error not_set)
  else
    match CORS_WHITELIST_URLS env with
    | Some urls =>
        let whitelist := parse_whitelist urls in
        Booted whitelist (if db_connected then Some (port_of env) else None)
    | None => Crashed (Error not_set)
    end.

Definition boot_whitelist (b : boot) : option (list jsstring) :=
  match b with Crashed _ => None | Booted w _ => Some w end.

Definition boot_listening (b : boot) : option (jsstring + N) :=
  match b with Crashed _ => None | Booted _ p => p end.

(** ** The origin decision *)

(** What the [origin] function of the CORS options tells the package:
    [callback(null, true)] or [callback(err)]. *)
Inductive cors_callback :=
| CallbackAllow
| CallbackError (e : js_error).

(** [whitelist.includes(origin)] for an [origin] that may be [undefined]. *)
Definition includes_opt (whitelist : list jsstring) (origin : option jsstring) : bool :=
  match origin with
  | Some o => includes whitelist o
  | None => false
  end.

(** [corsOptions.origin] *)
Definition corsOptions_origin (whitelist : list jsstring) (origin : option jsstring)
  : cors_callback :=
  if negb (truthy_opt origin) then CallbackAllow
  else if includes_opt whitelist origin then CallbackAllow
  else CallbackError (Error (str "Not allowed by CORS")).

(** The test of the origin-blocking middleware,
    [origin && !whitelist.includes(origin)]. *)
Definition origin_blocked (whitelist : list jsstring) (origin : option jsstring) : bool :=
  truthy_opt origin && negb (includes_opt whitelist origin).

Inductive cors_decision := Allowed | Blocked.

Definition decision_of (c : cors_callback) : cors_decision :=
  match c with
  | CallbackAllow => Allowed
  | CallbackError _ => Blocked
  end.

(** The decision on an origin, as [corsOptions.origin] takes it. *)
Definition decide_origin (origin : option jsstring) (whitelist : list jsstring)
  : cors_decision :=
  decision_of (corsOptions_origin whitelist origin).

(** ** Requests, responses and middlewares *)

Record request := Request {
  req_method : jsstring;
  req_path : jsstring;
  (** [req.header('Origin')], [undefined] without the header *)
  req_origin : option jsstring;
  req_body : value;
  (** [req.headers['access-control-request-headers']] *)
  req_request_headers : option jsstring
}.

(** What a response was ended with: nothing ([res.end()]), the properties
    of an object literal ([res.json]) or a text ([res.send]). *)
Inductive payload :=
| Empty
| Json (props : list (jsstring * value))
| Text (s : jsstring).

Record response := Response {
  res_status : nat;
  res_headers : list (jsstring * jsstring);
  (** [None] as long as the response is not ended *)
  res_sent : option payload
}.

(** Header names are compared without case. *)
Definition lower (c : N) : N :=
  if ((65 <=? c) && (c <=? 90))%N then (c + 32)%N else c.

Definition same_name (a b : jsstring) : bool :=
  bool_decide (lower <$> a = lower <$> b).

Fixpoint get_header (name : jsstring) (hs : list (jsstring * jsstring))
  : option jsstring :=
  match hs with
  | [] => None
  | (n, v) :: r => if same_name n name then Some v else get_header name r
  end.

Fixpoint set_header (name val : jsstring) (hs : list (jsstring * jsstring))
  : list (jsstring * jsstring) :=
  match hs with
  | [] => [(name, val)]
  | (n, v) :: r =>
      if same_name n name then (name, val) :: r else (n, v) :: set_header name val r
  end.

(** [res.header(name, val)] *)
Definition header (name val : jsstring) (res : response) : response :=
  {| res_status := res_status res;
     res_headers := set_header name val (res_headers res);
     res_sent := res_sent res |}.

(** [res.status(code)] *)
Definition status (code : nat) (res : response) : response :=
  {| res_status := code; res_headers := res_headers res; res_sent := res_sent res |}.

Definition send (p : payload) (res : response) : response :=
  {| res_status := res_status res; res_headers := res_headers res; res_sent := Some p |}.

(** One request in flight: the store, the request, the response and the
    lines written to the console. *)
Record exchange := Exchange {
  ex_heap : heap;
  ex_req : request;
  ex_res : response;
  ex_log : list jsstring
}.

Definition with_res (res : response) (x : exchange) : exchange :=
  {| ex_heap := ex_heap x; ex_req := ex_req x; ex_res := res; ex_log := ex_log x |}.

Definition with_body (h : heap) (body : value) (x : exchange) : exchange :=
  {| ex_heap := h;
     ex_req := {| req_method := req_method (ex_req x); req_path := req_path (ex_req x);
                  req_origin := req_origin (ex_req x); req_body := body;
                  req_request_headers := req_request_headers (ex_req x) |};
     ex_res := ex_res x; ex_log := ex_log x |}.

Definition with_heap (h : heap) (x : exchange) : exchange :=
  {| ex_heap := h; ex_req := ex_req x; ex_res := ex_res x; ex_log := ex_log x |}.

Definition console_log (line : jsstring) (x : exchange) : exchange :=
  {| ex_heap := ex_heap x; ex_req := ex_req x; ex_res := ex_res x;
     ex_log := ex_log x ++ [line] |}.

(** How a middleware leaves a request: [next()], [next(err)] or a throw,
    or with the response ended. *)
Inductive step :=
| Next (x : exchange)
| Fail (e : js_error) (x : exchange)
| End (x : exchange).

Definition handler := exchange -> step.
Definition error_handler := js_error -> exchange -> step.

Inductive callback :=
| Middleware (f : handler)
| ErrorMiddleware (f : error_handler).

(** The options object passed to the [cors] package. *)
Inductive origin_option :=
| OriginTrue
| OriginFunction (f : option jsstring -> cors_callback).

Record cors_options := CorsOptions {
  opt_origin : origin_option;
  opt_methods : option (list jsstring);
  opt_allowedHeaders : option (list jsstring);
  opt_credentials : bool;
  opt_maxAge : option N;
  opt_preflightContinue : option bool;
  opt_optionsSuccessStatus : option nat
}.

(** The packages and modules the application is assembled from. *)
Record packages := Packages {
  cookieParser : handler;
  bodyParser_json : handler;
  bodyParser_urlencoded : handler;
  logger : handler;
  cors : cors_options -> handler;
  appVersionValidator : handler;
  router : handler;
  helmet_xssFilter : handler;
  mongoSanitize : handler;
  logErrors : callback;
  (** Express's test that a request path lies under a mount path *)
  mounted : jsstring -> request -> bool
}.

(** ** The [cors] package *)

(** [String.prototype.toUpperCase] on a request method, which is an HTTP
    token and so made of ASCII characters. *)
Definition upper (c : N) : N :=
  if ((97 <=? c) && (c <=? 122))%N then (c - 32)%N else c.

(** The test of the package for a preflight,
    [req.method.toUpperCase() === 'OPTIONS']. *)
Definition is_preflight (req : request) : bool :=
  bool_decide (upper <$> req_method req = str "OPTIONS").

Fixpoint drop_spaces (s : jsstring) : jsstring :=
  match s with
  | c :: r => if (c =? 32)%N then drop_spaces r else s
  | [] => []
  end.

(** [parse] of the [vary] package: the fields of a header value, between
    the commas, without the spaces around them. *)
Definition vary_fields (value : jsstring) : list jsstring :=
  (fun f => reverse (drop_spaces (reverse (drop_spaces f)))) <$> js_split 44%N value.

(** [vary(res, field)] for one field name: the name is appended to the
    [Vary] header unless the header lists it already or is [*]. *)
Definition vary (field : jsstring) (res : response) : response :=
  let old := default [] (get_header (str "Vary") (res_headers res)) in
  let fields := vary_fields (lower <$> old) in
  let new :=
    if bool_decide (str "*" ∈ fields) then str "*"
    else if bool_decide ((lower <$> field) ∈ fields) then old
    else match old with
         | [] => field
         | _ :: _ => old ++ str ", " ++ field
         end in
  if truthy_str new then header (str "Vary") new res else res.

(** [applyHeaders] on one header: it is set when its value is truthy. *)
Definition apply_header (key : jsstring) (value : option jsstring) (res : response)
  : response :=
  if truthy_opt value then header key (default [] value) res else res.

(** The defaults of the package: [methods], [optionsSuccessStatus]. *)
Definition default_methods : jsstring := str "GET,HEAD,PUT,PATCH,POST,DELETE".
Definition default_success_status : nat := 204.

(** [Number.prototype.toString] on a non-negative integer. *)
Definition number_text (n : N) : jsstring :=
  str (NilZero.string_of_uint (N.to_uint n)).

Section CorsPackage.

Context (options : cors_options).

(** [configureOrigin] once the origin callback has answered [true]: the
    origin of the request is reflected. *)
Definition configureOrigin (req : request) (res : response) : response :=
  vary (str "Origin")
    (apply_header (str "Access-Control-Allow-Origin") (req_origin req) res).

Definition configureCredentials (res : response) : response :=
  if opt_credentials options
  then header (str "Access-Control-Allow-Credentials") (str "true") res
  else res.

Definition configureMethods (res : response) : response :=
  apply_header (str "Access-Control-Allow-Methods")
    (Some (match opt_methods options with
           | Some ms => js_join 44%N ms
           | None => default_methods
           end)) res.

(** Without [allowedHeaders] the headers the request asks for are
    reflected. *)
Definition configureAllowedHeaders (req : request) (res : response) : response :=
  match opt_allowedHeaders options with
  | Some hs => apply_header (str "Access-Control-Allow-Headers") (Some (js_join 44%N hs)) res
  | None =>
      apply_header (str "Access-Control-Allow-Headers") (req_request_headers req)
        (vary (str "Access-Control-Request-Headers") res)
  end.

Definition configureMaxAge (res : response) : response :=
  apply_header (str "Access-Control-Max-Age") (number_text <$> opt_maxAge options) res.

(** The middleware [cors(options)] returns.  The origin callback is the
    [origin] function of the options, or answers [true] for
    [origin: true]; an error of the callback goes to [next].  A preflight
    is answered by the middleware itself unless [preflightContinue] is
    set.  Neither options object of the file has [exposedHeaders]. *)
Definition cors_package : handler := fun x =>
  let req := ex_req x in
  match match opt_origin options with
        | OriginTrue => CallbackAllow
        | OriginFunction f => f (req_origin req)
        end with
  | CallbackError e => Fail e x
  | CallbackAllow =>
      if is_preflight req then
        let res := configureOrigin req (ex_res x) in
        let res := configureCredentials res in
        let res := configureMethods res in
        let res := configureAllowedHeaders req res in
        let res := configureMaxAge res in
        if default false (opt_preflightContinue options) then Next (with_res res x)
        else
          let res := status (default default_success_status
                               (opt_optionsSuccessStatus options)) res in
          let res := header (str "Content-Length") (str "0") res in
          End (with_res (send Empty res) x)
      else
        let res := configureOrigin req (ex_res x) in
        let res := configureCredentials res in
        Next (with_res res x)
  end.

End CorsPackage.

(** ** The application *)

(** [cors({ origin: true, credentials: true })] *)
Definition compulsory_options : cors_options :=
  {| opt_origin := OriginTrue;
     opt_methods := None;
     opt_allowedHeaders := None;
     opt_credentials := true;
     opt_maxAge := None;
     opt_preflightContinue := None;
     opt_optionsSuccessStatus := None |}.

Definition corsOptions (whitelist : list jsstring) : cors_options :=
  {| opt_origin := OriginFunction (corsOptions_origin whitelist);
     opt_methods :=
       Some [str "GET"; str "POST"; str "PUT"; str "DELETE"; str "OPTIONS"; str "PATCH"];
     opt_allowedHeaders :=
       Some [str "Origin"; str "X-Requested-With"; str "Content-Type"; str "Accept";
             str "Authorization"; str "Access-Control-Allow-Origin";
             str "Access-Control-Allow-Headers"; str "Access-Control-Allow-Methods"];
     opt_credentials := true;
     opt_maxAge := Some 86400%N;
     opt_preflightContinue := Some false;
     opt_optionsSuccessStatus := Some 204 |}.

(** [req.header('Origin') || '*'] *)
Definition origin_or_star (origin : option jsstring) : jsstring :=
  match origin with
  | Some o => if truthy_str o then o else str "*"
  | None => str "*"
  end.

(** The "additional CORS headers" middleware. *)
Definition cors_headers : handler := fun x =>
  let req := ex_req x in
  let res := ex_res x in
  let res := header (str "Access-Control-Allow-Origin") (origin_or_star (req_origin req)) res in
  let res := header (str "Access-Control-Allow-Credentials") (str "true") res in
  let res := header (str "Access-Control-Allow-Methods")
                    (str "GET,HEAD,PUT,PATCH,POST,DELETE,OPTIONS") res in
  let res := header (str "Access-Control-Allow-Headers")
                    (str "Origin, X-Requested-With, Content-Type, Accept, Authorization") res in
  if bool_decide (req_method req = str "OPTIONS") then
    End (with_res (send Empty (status 204 res)) x)
  else
    Next (with_res res x).

(** An [origin] in a template literal, and as a property value. *)
Definition origin_text (origin : option jsstring) : jsstring :=
  match origin with Some o => o | None => str "undefined" end.

Definition origin_value (origin : option jsstring) : value :=
  match origin with Some o => VStr o | None => VUndefined end.

Definition blocked_body (origin : option jsstring) : payload :=
  Json [(str "error", VStr (str "CORS policy does not allow access from this origin."));
        (str "origin", origin_value origin)].

(** The "security middleware to block disallowed origins". *)
Definition origin_guard (whitelist : list jsstring) : handler := fun x =>
  let origin := req_origin (ex_req x) in
  if origin_blocked whitelist origin then
    let x := console_log (str "Blocked request from unauthorized origin: "
                          ++ origin_text origin) x in
    End (with_res (send (blocked_body origin) (status 403 (ex_res x))) x)
  else
    Next x.

(** The middleware that sanitizes [req.body]; an exception of [sanitize]
    reaches Express as an error. *)
Definition sanitize_body (lib : string_lib) (depth : nat) : handler := fun x =>
  match sanitize lib depth (ex_heap x) (req_body (ex_req x)) with
  | Ok (h, body) => Next (with_body h body x)
  | Throw h e => Fail e (with_heap h x)
  end.

(** The fallback [app.get("*", ...)]. *)
Definition not_found : handler := fun x =>
  End (with_res (send (Text (str "API NOT FOUND")) (status 404 (ex_res x))) x).

(** A route registered with [app.get] also serves HEAD requests. *)
Definition is_get (req : request) : bool :=
  bool_decide (req_method req = str "GET") || bool_decide (req_method req = str "HEAD").

Inductive stage :=
| CookieParser | BodyParserJson | BodyParserUrlencoded | Logger
| CorsCompulsory | CorsEnhanced
| CorsHeaders | OriginGuard
| VersionValidator | Router
| XssFilter | SanitizeBody | MongoSanitize
| LogErrors | NotFound.

#[global] Instance stage_eq_dec : EqDecision stage.
Proof. solve_decision. Defined.

(** A registered middleware: its name, the requests it applies to and the
    function. *)
Record layer := Layer {
  layer_stage : stage;
  layer_match : request -> bool;
  layer_fn : callback
}.

Definition every_request (req : request) : bool := true.

Section Application.

Context (pkg : packages) (lib : string_lib) (depth : nat)
        (whitelist : list jsstring).

(** The calls of [app.use] and [app.get], in the order of the file. *)
Definition app : list layer :=
  [ Layer CookieParser every_request (Middleware (cookieParser pkg));
    Layer BodyParserJson every_request (Middleware (bodyParser_json pkg));
    Layer BodyParserUrlencoded every_request (Middleware (bodyParser_urlencoded pkg));
    Layer Logger every_request (Middleware (logger pkg));
    Layer CorsCompulsory every_request (Middleware (cors pkg compulsory_options));
    Layer CorsEnhanced every_request (Middleware (cors pkg (corsOptions whitelist)));
    Layer CorsHeaders every_request (Middleware cors_headers);
    Layer OriginGuard every_request (Middleware (origin_guard whitelist));
    Layer VersionValidator (mounted pkg (str "/clientApis"))
          (Middleware (appVersionValidator pkg));
    Layer Router (mounted pkg (str "/clientApis")) (Middleware (router pkg));
    Layer XssFilter every_request (Middleware (helmet_xssFilter pkg));
    Layer SanitizeBody every_request (Middleware (sanitize_body lib depth));
    Layer MongoSanitize every_request (Middleware (mongoSanitize pkg));
    Layer LogErrors every_request (logErrors pkg);
    Layer NotFound is_get (Middleware not_found) ].

End Application.

(** ** Express's dispatch *)

(** What became of a request at a stage. *)
Inductive verdict := Passed | Failed | Ended.

#[global] Instance verdict_eq_dec : EqDecision verdict.
Proof. solve_decision. Defined.

Definition event := (stage * verdict)%type.

(** The request after a run of layers: still to be handled, normally or
    with a pending error, or answered.  A request still to be handled
    when the layers of the application are through is not left without an
    answer: Express hands it to its final handler, which answers 404, or,
    with an error pending, an error status (500 unless the error or the
    response carries another). *)
Inductive progress :=
| Pending (err : option js_error) (x : exchange)
| Finished (x : exchange).

(** What a layer does with a request: nothing when it does not apply to
    it, and nothing either for a middleware while an error is pending or
    for an error middleware while none is. *)
Definition layer_step (ly : layer) (err : option js_error) (x : exchange)
  : option step :=
  if layer_match ly (ex_req x) then
    match layer_fn ly, err with
    | Middleware f, None => Some (f x)
    | ErrorMiddleware f, Some e => Some (f e x)
    | _, _ => None
    end
  else None.

(** The layers run in the order of registration; one that ends the
    response stops the run. *)
Fixpoint dispatch (layers : list layer) (err : option js_error) (x : exchange)
  : list event * progress :=
  match layers with
  | [] => ([], Pending err x)
  | ly :: rest =>
      match layer_step ly err x with
      | None => dispatch rest err x
      | Some (Next x') =>
          let '(t, p) := dispatch rest None x' in ((layer_stage ly, Passed) :: t, p)
      | Some (Fail e x') =>
          let '(t, p) := dispatch rest (Some e) x' in ((layer_stage ly, Failed) :: t, p)
      | Some (End x') => ([(layer_stage ly, Ended)], Finished x')
      end
  end.

(** The layers registered before a stage. *)
Fixpoint upstream (s : stage) (layers : list layer) : list layer :=
  match layers with
  | [] => []
  | ly :: rest =>
      if bool_decide (layer_stage ly = s) then [] else ly :: upstream s rest
  end.

(** The request [x] comes to stage [s] as [x'], with no error pending. *)
Definition reaches (layers : list layer) (s : stage) (x x' : exchange) : Prop :=
  exists t, dispatch (upstream s layers) None x = (t, Pending None x').

(** The stages that ran, in the order they ran. *)
Definition stages_of (t : list event) : list stage := t.*1.



(** ** A process serving requests *)

Record process := Process {
  proc_whitelist : list jsstring;
  proc_listening : option (jsstring + N)
}.

(** Serving one request: the middlewares close over the whitelist of the
    process and nothing assigns to it. *)
Definition serve (pkg : packages) (lib : string_lib) (depth : nat)
    (p : process) (x : exchange) : process * (list event * progress) :=
  (p, dispatch (app pkg lib depth (proc_whitelist p)) None x).

Fixpoint serve_all (pkg : packages) (lib : string_lib) (depth : nat)
    (p : process) (xs : list exchange) : process * list (list event * progress) :=
  match xs with
  | [] => (p, [])
  | x :: r =>
      let '(p1, out) := serve pkg lib depth p x in
      let '(p2, outs) := serve_all pkg lib depth p1 r in
      (p2, out :: outs)
  end.

(** ** The packages to run the application with *)

Definition pass : handler := Next.

(** A route handler that answers 200 with the body it received. *)
Definition echo_route : handler := fun x =>
  End (with_res (send (Json [(str "received", req_body (ex_req x))])
                      (status 200 (ex_res x))) x).

(** [cors] is the package as modelled above.  The other packages hand
    the request on untouched, the error logger hands the error on, paths
    are matched by prefix, and the router answers. *)
Definition plain_packages : packages :=
  {| cookieParser := pass;
     bodyParser_json := pass;
     bodyParser_urlencoded := pass;
     logger := pass;
     cors := cors_package;
     appVersionValidator := pass;
     router := echo_route;
     helmet_xssFilter := pass;
     mongoSanitize := pass;
     logErrors := ErrorMiddleware (fun e x => Fail e x);
     mounted := fun path req => starts_with path (req_path req) |}.

Definition fresh_response : response :=
  {| res_status := 200; res_headers := []; res_sent := None |}.

Definition incoming (method path : string) (origin : option string)
    (h : heap) (body : value) : exchange :=
  {| ex_heap := h;
     ex_req := {| req_method := str method; req_path := str path;
                  req_origin := str <$> origin; req_body := body;
                  req_request_headers := None |};
     ex_res := fresh_response;
     ex_log := [] |}.

(** ** The shape of a value *)

(** What a finite, acyclic value looks like with the text of its strings
    left out: the leaves, the length and order of the arrays, the keys of
    the objects. *)
Inductive shape :=
| SUndefined
| SNull
| SBool (b : bool)
| SNum (n : number)
| SStr
| SArr (elems : list shape)
| SObj (own : list (jsstring * shape)) (inherited : list jsstring).

Definition all2 {A B} (f : A -> B -> bool) : list A -> list B -> bool :=
  fix go l1 l2 :=
    match l1, l2 with
    | [], [] => true
    | a :: l1', b :: l2' => f a b && go l1' l2'
    | _, _ => false
    end.

Definition prop_shaped (f : shape -> value -> bool)
    (ks : jsstring * shape) (kv : jsstring * value) : bool :=
  bool_decide (ks.1 = kv.1) && f ks.2 kv.2.

(** [has_shape h s v]: in the store [h], the value [v] unfolds to [s]. *)
Fixpoint has_shape (h : heap) (s : shape) (v : value) {struct s} : bool :=
  match s, v with
  | SUndefined, VUndefined => true
  | SNull, VNull => true
  | SBool b, VBool b' => bool_decide (b = b')
  | SNum n, VNum n' => bool_decide (n = n')
  | SStr, VStr _ => true
  | SArr ss, VRef l =>
      match h !! l with
      | Some (OArray vs) => all2 (has_shape h) ss vs
      | _ => false
      end
  | SObj kss inh, VRef l =>
      match h !! l with
      | Some (OPlain own inh') =>
          bool_decide (inh = inh') && all2 (prop_shaped (has_shape h)) kss own
      | _ => false
      end
  | _, _ => false
  end.

(** The number of nested calls [sanitize] makes below the first one. *)
Fixpoint height (s : shape) : nat :=
  match s with
  | SArr ss => S (foldr (fun s' n => height s' `max` n) 0 ss)
  | SObj kss _ => S (foldr (fun ks n => height ks.2 `max` n) 0 kss)
  | _ => 0
  end.

(** No object of the shape has an own property called [hasOwnProperty]. *)
Fixpoint method_visible (s : shape) : bool :=
  match s with
  | SArr ss => forallb method_visible ss
  | SObj kss _ =>
      negb (bool_decide (str "hasOwnProperty" ∈ kss.*1))
      && forallb (fun ks => method_visible ks.2) kss
  | _ => true
  end.

(** A parsed body, [{ name: "  Ann ", tags: [" a", true, null],
    address: { city: " Pune " } }], and its shape. *)
Definition example_store : heap :=
  [OPlain [(str "name", VStr (str "  Ann ")); (str "tags", VRef 1);
           (str "address", VRef 2)] [];
   OArray [VStr (str " a"); VBool true; VNull];
   OPlain [(str "city", VStr (str " Pune "))] []].

Definition example_shape : shape :=
  SObj [(str "name", SStr);
        (str "tags", SArr [SStr; SBool true; SNull]);
        (str "address", SObj [(str "city", SStr)] [])] [].

(** Every value of the store [h] has in [h'] the shape it has in [h], and
    [h'] has the locations of [h]. *)
Definition keeps_shapes (h h' : heap) : Prop :=
  length h <= length h'
  /\ forall s v, has_shape h s v = true -> has_shape h' s v = true.

(** What [sanitize] returns for [v]: for an array a location that was free
    in [h], for an object the location of the object itself, a string for a
    string, and any other value as it is. *)
Definition returned (h : heap) (v v' : value) : Prop :=
  match v with
  | VRef l =>
      match h !! l with
      | Some (OArray _) => exists l', v' = VRef l' /\ h !! l' = None
      | _ => v' = v
      end
  | VStr _ => exists s', v' = VStr s'
  | _ => v' = v
  end.

(** [f] sanitizes the values that need fewer than [n] nested calls. *)
Definition sanitizes (f : heap -> value -> outcome (heap * value)) (n : nat) : Prop :=
  forall h v s,
    height s < n -> method_visible s = true -> has_shape h s v = true ->
    exists h' v',
      f h v = Ok (h', v') /\ has_shape h' s v' = true
      /\ keeps_shapes h h' /\ returned h v v'.

(** ** What the spec says of the string packages *)

(** The strings the purifier has nothing to look for in: those without
    [<].  Text whose [<] opens no tag, such as [1 < 2], has no markup
    either ([tag_free]) and is not among them. *)
Definition markup_free (s : jsstring) : Prop := 60%N ∉ s.


(** Modelled from the spec: [validator.trim], a function of the package
    validator, is the step that "trim[s] leading/trailing whitespace". *)
Definition trims (lib : string_lib) : Prop :=
  forall s, validator_trim lib s = js_trim s.

(** Modelled from the spec: [purify.sanitize], a function of the package
    dompurify, "strips executable markup" and so has nothing to strip from
    a string without [<]. *)
Definition keeps_plain_text (lib : string_lib) : Prop :=
  forall s, markup_free s -> purify_sanitize lib s = s.

Definition html_space (c : N) : bool :=
  ((c =? 9) || (c =? 10) || (c =? 12) || (c =? 13) || (c =? 32))%N.

Definition attribute := (jsstring * jsstring)%type.
Definition tag := (jsstring * list attribute)%type.

(** The tags of a string, each with its name and its attributes, read the
    way an HTML tokenizer reads start tags: a tag runs from a [<] followed
    by a letter to the next [>] outside a quoted attribute value, and a
    tag the string ends in is no tag. *)
Inductive scan :=
| InText
| TagOpen
| InTagName (name : jsstring)
| BeforeAttr (name : jsstring) (attrs : list attribute)
| InAttrName (name : jsstring) (attrs : list attribute) (n : jsstring)
| AfterAttrName (name : jsstring) (attrs : list attribute) (n : jsstring)
| BeforeAttrValue (name : jsstring) (attrs : list attribute) (n : jsstring)
| InQuoted (quote : N) (name : jsstring) (attrs : list attribute) (n v : jsstring)
| InUnquoted (name : jsstring) (attrs : list attribute) (n v : jsstring).

Definition scan_step (st : scan) (c : N) : scan * option tag :=
  match st with
  | InText => (if (c =? 60)%N then TagOpen else InText, None)
  | TagOpen =>
      (if ascii_letter c then InTagName [c]
       else if (c =? 60)%N then TagOpen else InText, None)
  | InTagName name =>
      if html_space c || (c =? 47)%N then (BeforeAttr name [], None)
      else if (c =? 62)%N then (InText, Some (name, []))
      else (InTagName (name ++ [c]), None)
  | BeforeAttr name attrs =>
      if html_space c || (c =? 47)%N then (st, None)
      else if (c =? 62)%N then (InText, Some (name, attrs))
      else (InAttrName name attrs [c], None)
  | InAttrName name attrs n =>
      if html_space c then (AfterAttrName name attrs n, None)
      else if (c =? 47)%N then (BeforeAttr name (attrs ++ [(n, [])]), None)
      else if (c =? 61)%N then (BeforeAttrValue name attrs n, None)
      else if (c =? 62)%N then (InText, Some (name, attrs ++ [(n, [])]))
      else (InAttrName name attrs (n ++ [c]), None)
  | AfterAttrName name attrs n =>
      if html_space c then (st, None)
      else if (c =? 47)%N then (BeforeAttr name (attrs ++ [(n, [])]), None)
      else if (c =? 61)%N then (BeforeAttrValue name attrs n, None)
      else if (c =? 62)%N then (InText, Some (name, attrs ++ [(n, [])]))
      else (InAttrName name (attrs ++ [(n, [])]) [c], None)
  | BeforeAttrValue name attrs n =>
      if html_space c then (st, None)
      else if (c =? 34)%N || (c =? 39)%N then (InQuoted c name attrs n [], None)
      else if (c =? 62)%N then (InText, Some (name, attrs ++ [(n, [])]))
      else (InUnquoted name attrs n [c], None)
  | InQuoted quote name attrs n v =>
      if (c =? quote)%N then (BeforeAttr name (attrs ++ [(n, v)]), None)
      else (InQuoted quote name attrs n (v ++ [c]), None)
  | InUnquoted name attrs n v =>
      if html_space c then (BeforeAttr name (attrs ++ [(n, v)]), None)
      else if (c =? 62)%N then (InText, Some (name, attrs ++ [(n, v)]))
      else (InUnquoted name attrs n (v ++ [c]), None)
  end.

Fixpoint tags_from (st : scan) (s : jsstring) : list tag :=
  match s with
  | [] => []
  | c :: r =>
      let '(st', out) := scan_step st c in
      match out with
      | Some t => t :: tags_from st' r
      | None => tags_from st' r
      end
  end.

Definition tags (s : jsstring) : list tag := tags_from InText s.






(** Modelled from the spec: [purify.sanitize], a function of the package
    dompurify, is "preserving well-formed URLs unchanged when they use an
    explicit protocol scheme", the URLs [validator.isURL] accepts with
    [require_protocol]. *)
Definition keeps_urls (lib : string_lib) : Prop :=
  forall s, validator_isURL lib s = true -> purify_sanitize lib s = s.

(** ** Names used by the further properties *)

(** The headers the CORS header middleware sets. *)
Definition cors_header_names : list jsstring :=
  [str "Access-Control-Allow-Origin"; str "Access-Control-Allow-Credentials";
   str "Access-Control-Allow-Methods"; str "Access-Control-Allow-Headers"].
(** ** The content of a value *)

(** No object of the shape has two properties of one name, own or
    inherited: [for ... in] reports every name once. *)
Fixpoint distinct_keys (s : shape) : bool :=
  match s with
  | SArr ss => forallb distinct_keys ss
  | SObj kss inh =>
      bool_decide (NoDup (kss.*1 ++ inh))
      && forallb (fun ks => distinct_keys ks.2) kss
  | _ => true
  end.

(** A finite, acyclic value, with the text of its strings. *)
Inductive tree :=
| TUndefined
| TNull
| TBool (b : bool)
| TNum (n : number)
| TStr (s : jsstring)
| TArr (elems : list tree)
| TObj (own : list (jsstring * tree)) (inherited : list jsstring).

Definition prop_denoted (f : tree -> value -> bool)
    (kt : jsstring * tree) (kv : jsstring * value) : bool :=
  bool_decide (kt.1 = kv.1) && f kt.2 kv.2.

(** [denotes h t v]: in the store [h], the value [v] unfolds to [t]. *)
Fixpoint denotes (h : heap) (t : tree) (v : value) {struct t} : bool :=
  match t, v with
  | TUndefined, VUndefined => true
  | TNull, VNull => true
  | TBool b, VBool b' => bool_decide (b = b')
  | TNum n, VNum n' => bool_decide (n = n')
  | TStr s, VStr s' => bool_decide (s = s')
  | TArr ts, VRef l =>
      match h !! l with
      | Some (OArray vs) => all2 (denotes h) ts vs
      | _ => false
      end
  | TObj kts inh, VRef l =>
      match h !! l with
      | Some (OPlain own inh') =>
          bool_decide (inh = inh') && all2 (prop_denoted (denotes h)) kts own
      | _ => false
      end
  | _, _ => false
  end.

(** The locations [v] is made of: its own, for an array or an object,
    and those of its elements or property values. *)
Fixpoint footprint (h : heap) (t : tree) (v : value) {struct t} : list loc :=
  match t, v with
  | TArr ts, VRef l =>
      match h !! l with
      | Some (OArray vs) => l :: concat (zip_with (footprint h) ts vs)
      | _ => []
      end
  | TObj kts _, VRef l =>
      match h !! l with
      | Some (OPlain own _) =>
          l :: concat (zip_with (fun kt kv => footprint h kt.2 kv.2) kts own)
      | _ => []
      end
  | _, _ => []
  end.

Fixpoint shape_of (t : tree) : shape :=
  match t with
  | TUndefined => SUndefined
  | TNull => SNull
  | TBool b => SBool b
  | TNum n => SNum n
  | TStr _ => SStr
  | TArr ts => SArr (shape_of <$> ts)
  | TObj kts inh => SObj ((fun kt => (kt.1, shape_of kt.2)) <$> kts) inh
  end.

(** What [sanitize] makes of a value: every string, at any depth, trimmed
    and purified, and nothing else changed. *)
Fixpoint sanitized (lib : string_lib) (t : tree) : tree :=
  match t with
  | TStr s => TStr (purify_sanitize lib (validator_trim lib s))
  | TArr ts => TArr (sanitized lib <$> ts)
  | TObj kts inh => TObj ((fun kt => (kt.1, sanitized lib kt.2)) <$> kts) inh
  | _ => t
  end.

(** [f] turns a value that needs fewer than [n] nested calls and shares no
    object between two of its parts into its sanitized content, within the
    locations of the value and new ones. *)
Definition sanitizes_content (lib : string_lib)
    (f : heap -> value -> outcome (heap * value)) (n : nat) : Prop :=
  forall h v t,
    height (shape_of t) < n ->
    method_visible (shape_of t) = true ->
    distinct_keys (shape_of t) = true ->
    denotes h t v = true ->
    NoDup (footprint h t v) ->
    exists h' v',
      f h v = Ok (h', v')
      /\ denotes h' (sanitized lib t) v' = true
      /\ length h <= length h'
      /\ (forall l, l < length h -> l ∉ footprint h t v -> h' !! l = h !! l)
      /\ NoDup (footprint h' (sanitized lib t) v')
      /\ (forall l, l ∈ footprint h' (sanitized lib t) v' ->
                    l ∈ footprint h t v \/ length h <= l).

(** [f] throws the [TypeError] of the hidden method on the values that
    need fewer than [n] nested calls and hold an object with an own
    property called [hasOwnProperty]. *)
Definition throws_on_hidden_method
    (f : heap -> value -> outcome (heap * value)) (n : nat) : Prop :=
  forall h v s,
    height s < n -> distinct_keys s = true -> method_visible s = false ->
    has_shape h s v = true ->
    exists h', f h v = Throw h' (TypeError not_a_function).

(** The locations of the elements of an array, or of the values of the
    properties of an object. *)
Definition footprints (h : heap) (ts : list tree) (vs : list value) : list loc :=
  concat (zip_with (footprint h) ts vs).

(** A value [sanitize] can go through with room for [n] nested calls. *)
Definition ready (n : nat) (t : tree) : Prop :=
  height (shape_of t) < n
  /\ method_visible (shape_of t) = true
  /\ distinct_keys (shape_of t) = true.

(** The content of location 0 of [example_store]. *)
Definition example_tree : tree :=
  TObj [(str "name", TStr (str "  Ann "));
        (str "tags", TArr [TStr (str " a"); TBool true; TNull]);
        (str "address", TObj [(str "city", TStr (str " Pune "))] [])] [].

(** ** Values that contain themselves *)

(** The location [sanitize] visits first inside the object at [l]: the
    first element of an array, the value of the first own property of an
    object that has no own property called [hasOwnProperty]. *)
Definition first_ref (h : heap) (l : loc) : option loc :=
  match h !! l with
  | Some (OArray (VRef l' :: _)) => Some l'
  | Some (OPlain ((k, VRef l') :: rest) _) =>
      if has_own (str "hasOwnProperty") ((k, VRef l') :: rest) then None
      else Some l'
  | _ => None
  end.

(** From every location of [ls] the first visit leads to a location of
    [ls]: the objects at [ls] contain one another in a circle. *)
Definition loop_closed (h : heap) (ls : list loc) : bool :=
  forallb (fun l => match first_ref h l with
                    | Some l' => bool_decide (l' ∈ ls)
                    | None => false
                    end) ls.

(** A store whose only object is its own property [self]. *)
Definition self_store : heap := [OPlain [(str "self", VRef 0)] []].

(** * Properties *)

(** ** Strings *)

Lemma trim_start_suffix s : exists a, s = a ++ trim_start s /\ forallb js_whitespace a = true.
Proof.
  induction s as [|c r [a [Hr Ha]]]; simpl.
  - by exists [].
  - destruct (js_whitespace c) eqn:Hc.
    + exists (c :: a). simpl. rewrite Hc, Ha. by rewrite <- Hr.
    + by exists [].
Qed.

Lemma trim_start_head s c : head (trim_start s) = Some c -> js_whitespace c = false.
Proof.
  induction s as [|d r IH]; simpl; [done|].
  destruct (js_whitespace d) eqn:Hd; [done|].
  simpl. by intros [= <-].
Qed.

Lemma trim_end_prefix s : exists b, s = trim_end s ++ b /\ forallb js_whitespace b = true.
Proof.
  unfold trim_end. destruct (trim_start_suffix (reverse s)) as [a [Hs Ha]].
  exists (reverse a). split.
  - rewrite <- reverse_app, <- Hs. by rewrite reverse_involutive.
  - rewrite forallb_forall in *. intros c Hc. apply Ha.
    apply list_elem_of_In. apply list_elem_of_In in Hc. by apply elem_of_reverse.
Qed.

Lemma trim_end_last s c : last (trim_end s) = Some c -> js_whitespace c = false.
Proof. unfold trim_end. rewrite last_reverse. apply trim_start_head. Qed.

Lemma trim_end_head s c :
  (forall d, head s = Some d -> js_whitespace d = false) ->
  head (trim_end s) = Some c -> js_whitespace c = false.
Proof.
  intros Hs Hc. destruct (trim_end_prefix s) as [b [Hb _]].
  destruct (trim_end s) as [|d r] eqn:E; [done|].
  simpl in Hc. injection Hc as ->. apply Hs. by rewrite Hb.
Qed.

(** [js_trim] takes whitespace off both ends and nothing else. *)
Lemma js_trim_spec s :
  exists a b, s = a ++ js_trim s ++ b
    /\ forallb js_whitespace a = true /\ forallb js_whitespace b = true
    /\ trimmed (js_trim s).
Proof.
  unfold js_trim.
  destruct (trim_start_suffix s) as [a [Ha Hwa]].
  destruct (trim_end_prefix (trim_start s)) as [b [Hb Hwb]].
  exists a, b. repeat split; try done.
  - by rewrite <- Hb.
  - intros c. apply trim_end_head. apply trim_start_head.
  - apply trim_end_last.
Qed.

Lemma js_trim_markup_free s : markup_free s -> markup_free (js_trim s).
Proof.
  unfold markup_free. intros Hs Hin.
  destruct (js_trim_spec s) as [a [b [E _]]].
  apply Hs. rewrite E, !elem_of_app. auto.
Qed.

Lemma js_split_nonempty sep s : js_split sep s <> [].
Proof.
  destruct s as [|c r]; simpl; [done|].
  destruct (c =? sep)%N; [done|]. by destruct (js_split sep r).
Qed.

Lemma js_join_split sep s : js_join sep (js_split sep s) = s.
Proof.
  induction s as [|c r IH]; simpl; [done|].
  destruct (c =? sep)%N eqn:E.
  - apply N.eqb_eq in E as ->.
    pose proof (js_split_nonempty sep r).
    destruct (js_split sep r) eqn:Er; [done|].
    simpl in *. by rewrite IH.
  - pose proof (js_split_nonempty sep r).
    destruct (js_split sep r) as [|p [|q ps]] eqn:Er; [done| |]; simpl in *;
      by rewrite <- IH.
Qed.

Lemma js_split_no_separator sep s piece : piece ∈ js_split sep s -> sep ∉ piece.
Proof.
  revert piece. induction s as [|c r IH]; simpl; intros piece Hin.
  - apply list_elem_of_singleton in Hin as ->. by apply not_elem_of_nil.
  - destruct (c =? sep)%N eqn:E.
    + apply elem_of_cons in Hin as [->|Hin]; [by apply not_elem_of_nil|by apply IH].
    + apply N.eqb_neq in E.
      pose proof (js_split_nonempty sep r).
      destruct (js_split sep r) as [|p ps] eqn:Er; [done|].
      apply elem_of_cons in Hin as [->|Hin].
      * intros [?|Hp]%elem_of_cons; [done|]. apply (IH p); [by left|done].
      * apply IH. by right.
Qed.

Lemma parse_whitelist_trimmed urls entry : entry ∈ parse_whitelist urls -> trimmed entry.
Proof.
  unfold parse_whitelist. intros (piece & -> & _)%list_elem_of_fmap.
  by destruct (js_trim_spec piece) as (a & b & _ & _ & _ & H).
Qed.

(** ** The string branch of the sanitizer *)

Example sanitize_body_example :
  sanitize plain_lib 5
    [OPlain [(str "name", VStr (str "  Ann ")); (str "tags", VRef 1)] [];
     OArray [VStr (str " a"); VNull]]
    (VRef 0)
  = Ok ([OPlain [(str "name", VStr (str "Ann")); (str "tags", VRef 2)] [];
         OArray [VStr (str " a"); VNull];
         OArray [VStr (str "a"); VNull]],
        VRef 0).
Proof. vm_compute. reflexivity. Qed.

Lemma sanitize_string lib depth h s :
  sanitize lib (S depth) h (VStr s)
  = Ok (h, VStr (purify_sanitize lib (validator_trim lib s))).
Proof. simpl. by destruct (validator_isURL lib _). Qed.

(** C10. [customEscape] returns its argument whatever it is: the two
    branches of its URL test are the same, so the test exempts no string
    from the purifier, which [sanitize] applies to every trimmed string. *)
Theorem customEscape_identity lib v :
  customEscape lib v = v
  /\ forall depth h s,
       sanitize lib (S depth) h (VStr s)
       = Ok (h, VStr (purify_sanitize lib (validator_trim lib s))).
Proof.
  split; [|apply sanitize_string].
  destruct v; simpl; try done. by destruct (validator_isURL lib s).
Qed.

Lemma plain_lib_trims : trims plain_lib.
Proof. by intros s. Qed.

Lemma plain_lib_keeps_plain_text : keeps_plain_text plain_lib.
Proof.
  intros s Hs. simpl. unfold purify_text, has_unit.
  by rewrite bool_decide_eq_false_2.
Qed.






Lemma plain_lib_keeps_urls : keeps_urls plain_lib.
Proof.
  intros s. simpl. intros H. unfold purify_text.
  destruct (has_unit 60%N s); [|done].
  by rewrite andb_false_r in H.
Qed.

(** C6, amended. A string without [<] comes out of [sanitize] trimmed and
    not otherwise changed, given that [validator.trim] trims and that the
    purifier leaves a string without [<] alone: the result is what is left
    of the string between its leading and its trailing whitespace. *)
Theorem sanitize_plain_text lib depth h s :
  trims lib -> keeps_plain_text lib -> markup_free s ->
  sanitize lib (S depth) h (VStr s) = Ok (h, VStr (js_trim s))
  /\ exists a b, s = a ++ js_trim s ++ b
       /\ forallb js_whitespace a = true /\ forallb js_whitespace b = true
       /\ trimmed (js_trim s).
Proof.
  intros Htrim Hplain Hs. split; [|apply js_trim_spec].
  rewrite sanitize_string, Htrim, Hplain; [done|].
  by apply js_trim_markup_free.
Qed.

Lemma sanitize_plain_text_witness :
  sanitize plain_lib 1 [] (VStr (str "  Fresh apples & pears "))
  = Ok ([], VStr (str "Fresh apples & pears")).
Proof.
  refine (proj1 (sanitize_plain_text plain_lib 0 [] (str "  Fresh apples & pears ")
                   plain_lib_trims plain_lib_keeps_plain_text _)).
  unfold markup_free. apply (bool_decide_eq_false_1 _). vm_compute. reflexivity.
Defined.

(** C6 as stated fails on text that has a [<] and no markup: the [<] of
    [1 < 2] opens no tag, and the purifier returns the text as HTML writes
    it, which is not the trimmed string. *)
Lemma text_with_angle_is_escaped :
  tag_free (str " 1 < 2 ") = true
  /\ tags (str " 1 < 2 ") = []
  /\ sanitize plain_lib 1 [] (VStr (str " 1 < 2 ")) = Ok ([], VStr (str "1 &lt; 2"))
  /\ js_trim (str " 1 < 2 ") = str "1 < 2"
  /\ str "1 &lt; 2" <> js_trim (str " 1 < 2 ").
Proof.
  split; [reflexivity|]. split; [reflexivity|].
  split; [vm_compute; reflexivity|]. split; [vm_compute; reflexivity|].
  vm_compute. discriminate.
Qed.




(** C8. A string that is, once trimmed, a URL with an explicit protocol
    comes out of [sanitize] trimmed and not otherwise changed, given that
    the purifier preserves such URLs. *)
Theorem sanitize_keeps_url lib depth h s :
  keeps_urls lib ->
  validator_isURL lib (validator_trim lib s) = true ->
  sanitize lib (S depth) h (VStr s) = Ok (h, VStr (validator_trim lib s)).
Proof.
  intros Hurl Hs. by rewrite sanitize_string, Hurl.
Qed.

Lemma sanitize_keeps_url_witness :
  sanitize plain_lib 1 [] (VStr (str " https://shop.example/item?id=7&ref=a "))
  = Ok ([], VStr (str "https://shop.example/item?id=7&ref=a")).
Proof.
  refine (sanitize_keeps_url plain_lib 0 [] (str " https://shop.example/item?id=7&ref=a ")
            plain_lib_keeps_urls _).
  vm_compute. reflexivity.
Defined.

(** ** The origin decision *)

Lemma includes_elem W o : includes W o = true <-> o ∈ W.
Proof. unfold includes. apply bool_decide_eq_true. Qed.

Lemma truthy_str_nonempty o : truthy_str o = true <-> o <> [].
Proof. by destruct o. Qed.

(** C4, amended. A request without [Origin] is allowed whatever the
    whitelist, and so is one whose [Origin] is the empty string; an origin
    that is present and not the empty string is allowed exactly when it
    is, code unit for code unit, an entry of the whitelist, and blocked
    otherwise; the origin-blocking middleware takes the same decision as
    [corsOptions.origin]. *)
Theorem origin_decision_exact W origin :
  (decide_origin origin W = Allowed
   <-> origin = None \/ origin = Some [] \/ exists o, origin = Some o /\ o ∈ W)
  /\ (decide_origin origin W = Blocked
      <-> exists o, origin = Some o /\ o <> [] /\ o ∉ W)
  /\ (origin_blocked W origin = true <-> decide_origin origin W = Blocked).
Proof.
  unfold decide_origin, corsOptions_origin, origin_blocked.
  destruct origin as [[|c o]|]; simpl.
  - split; [|split]; [split; auto| |done].
    split; [done|]. by intros (o & [= <-] & Hne & _).
  - destruct (includes W (c :: o)) eqn:E; simpl.
    + apply includes_elem in E. split; [|split]; [|split; [done|]|done].
      * split; [|done]. intros _. right. right. by exists (c :: o).
      * by intros (o' & [= <-] & _ & Hout).
    + assert (c :: o ∉ W) as Hout by (rewrite <- includes_elem; congruence).
      split; [|split]; [split; [done|]| |done].
      * by intros [|[|(o' & [= <-] & Hin)]].
      * split; [|done]. intros _. by exists (c :: o).
  - split; [|split]; [split; auto| |done].
    split; [done|]. by intros (o & [= ] & _).
Qed.

Lemma origin_decision_exact_witness :
  decide_origin (Some (str "https://shop.example")) [str "https://shop.example"] = Allowed
  /\ decide_origin (Some (str "https://Shop.example")) [str "https://shop.example"] = Blocked
  /\ decide_origin (Some (str "https://eu.shop.example")) [str "https://shop.example"] = Blocked
  /\ decide_origin (Some []) [str "https://shop.example"] = Allowed.
Proof.
  pose proof (origin_decision_exact [str "https://shop.example"]
                (Some (str "https://shop.example"))) as (H1 & _).
  pose proof (origin_decision_exact [str "https://shop.example"]
                (Some (str "https://Shop.example"))) as (_ & H2 & _).
  pose proof (origin_decision_exact [str "https://shop.example"]
                (Some (str "https://eu.shop.example"))) as (_ & H3 & _).
  pose proof (origin_decision_exact [str "https://shop.example"] (Some [])) as (H4 & _).
  split.
  { apply H1. right. right. eexists. split; [done|].
    apply (bool_decide_eq_true_1 _). vm_compute. reflexivity. }
  split.
  { apply H2. eexists. split; [done|]. split; [discriminate|].
    apply (bool_decide_eq_false_1 _). vm_compute. reflexivity. }
  split.
  { apply H3. eexists. split; [done|]. split; [discriminate|].
    apply (bool_decide_eq_false_1 _). vm_compute. reflexivity. }
  apply H4. auto.
Defined.

(** C4 as stated fails on the empty origin: it is present and no entry of
    the whitelist, and it is allowed. *)
Lemma empty_origin_is_allowed :
  decide_origin (Some []) [str "https://shop.example"] = Allowed
  /\ (([] : jsstring) ∉ [str "https://shop.example"])
  /\ origin_blocked [str "https://shop.example"] (Some []) = false.
Proof.
  split; [reflexivity|]. split; [|reflexivity].
  apply (bool_decide_eq_false_1 _). vm_compute. reflexivity.
Qed.

(** ** Startup *)

Lemma serve_all_process pkg lib depth p xs :
  (serve_all pkg lib depth p xs).1 = p.
Proof.
  induction xs as [|x r IH]; simpl; [done|].
  destruct (serve_all pkg lib depth p r) as [p2 outs] eqn:E. simpl in *. done.
Qed.

(** C9, amended. When the whitelist variable is unset or empty the module
    throws before it listens on any port.  When it is set to a string that
    is not empty, the whitelist is made of the pieces between the commas
    of that string, in their order, each without its leading and trailing
    whitespace; it has at least one entry; and it is the same after any
    sequence of requests the process serves. *)
Theorem whitelist_at_startup env db :
  match CORS_WHITELIST_URLS env with
  | Some (c :: r) =>
      let urls := c :: r in
      let whitelist := parse_whitelist urls in
      exists listening,
        startup env db = Booted whitelist listening
        /\ whitelist = js_trim <$> js_split 44%N urls
        /\ js_join 44%N (js_split 44%N urls) = urls
        /\ (forall piece, piece ∈ js_split 44%N urls -> 44%N ∉ piece)
        /\ (forall entry, entry ∈ whitelist -> trimmed entry)
        /\ whitelist <> []
        /\ forall pkg lib depth xs,
             proc_whitelist (serve_all pkg lib depth (Process whitelist listening) xs).1
             = whitelist
  | _ =>
      startup env db = Crashed (Error not_set)
      /\ boot_listening (startup env db) = None
  end.
Proof.
  unfold startup. destruct (CORS_WHITELIST_URLS env) as [[|c r]|]; simpl; try done.
  eexists. split; [done|]. split; [done|].
  split; [apply (js_join_split 44%N (c :: r))|].
  split; [apply (js_split_no_separator 44%N (c :: r))|].
  split; [apply parse_whitelist_trimmed|].
  split.
  - unfold parse_whitelist. intros H%fmap_nil_inv. by apply js_split_nonempty in H.
  - intros. by rewrite serve_all_process.
Qed.

(** C9 as stated fails on a variable that is set to the empty string: the
    value is present, and the module throws instead of building the
    whitelist of its pieces. *)
Lemma empty_whitelist_value_is_fatal :
  let env := Environment (Some []) (Some (str "8080")) in
  CORS_WHITELIST_URLS env = Some []
  /\ startup env true = Crashed (Error not_set)
  /\ boot_whitelist (startup env true) <> Some (parse_whitelist []).
Proof. by repeat split. Qed.

(** ** Dispatch *)

Lemma dispatch_app l1 l2 err x :
  dispatch (l1 ++ l2) err x =
  match dispatch l1 err x with
  | (t1, Pending err' x') =>
      let '(t2, p) := dispatch l2 err' x' in (t1 ++ t2, p)
  | (t1, Finished x') => (t1, Finished x')
  end.
Proof.
  revert err x. induction l1 as [|ly l1 IH]; intros err x; simpl.
  - by destruct (dispatch l2 err x).
  - destruct (layer_step ly err x) as [[x'|e x'|x']|]; try done.
    + rewrite IH. destruct (dispatch l1 None x') as [t1 [err' x''|x'']]; [|done].
      by destruct (dispatch l2 err' x'').
    + rewrite IH. destruct (dispatch l1 (Some e) x') as [t1 [err' x''|x'']]; [|done].
      by destruct (dispatch l2 err' x'').
Qed.

(** The stages run in the order of registration, each at most once. *)
Lemma dispatch_in_order layers err x :
  stages_of (dispatch layers err x).1 `sublist_of` (layer_stage <$> layers).
Proof.
  revert err x. induction layers as [|ly rest IH]; intros err x; simpl.
  - constructor.
  - destruct (layer_step ly err x) as [[x'|e x'|x']|].
    + specialize (IH None x'). destruct (dispatch rest None x'). by constructor.
    + specialize (IH (Some e) x'). destruct (dispatch rest (Some e) x'). by constructor.
    + simpl. constructor. apply sublist_nil_l.
    + constructor. apply IH.
Qed.

(** The stage that ends the response is the last one to run, and the run
    finishes there. *)
Lemma dispatch_end_is_final layers err x t1 s t2 :
  (dispatch layers err x).1 = t1 ++ (s, Ended) :: t2 ->
  t2 = [] /\ exists x', (dispatch layers err x).2 = Finished x'.
Proof.
  revert err x t1. induction layers as [|ly rest IH]; intros err x t1; simpl.
  - by destruct t1.
  - destruct (layer_step ly err x) as [[x'|e x'|x']|].
    + specialize (IH None x'). destruct (dispatch rest None x') as [t p]. simpl in *.
      destruct t1 as [|ev t1]; simpl; intros [= ]. eauto.
    + specialize (IH (Some e) x'). destruct (dispatch rest (Some e) x') as [t p]. simpl in *.
      destruct t1 as [|ev t1]; simpl; intros [= ]. eauto.
    + simpl. destruct t1 as [|ev t1]; simpl.
      * intros [= <- <-]. eauto.
      * intros [= _ H]. by destruct t1.
    + apply IH.
Qed.




(** ** Response headers *)

Lemma same_name_refl n : same_name n n = true.
Proof. unfold same_name. by apply bool_decide_eq_true. Qed.

Lemma get_set_header_same name val hs :
  get_header name (set_header name val hs) = Some val.
Proof.
  induction hs as [|[n v] r IH]; simpl.
  - by rewrite same_name_refl.
  - destruct (same_name n name) eqn:E; simpl.
    + by rewrite same_name_refl.
    + by rewrite E.
Qed.

Lemma get_set_header_other name other val hs :
  same_name other name = false ->
  get_header name (set_header other val hs) = get_header name hs.
Proof.
  intros Hne. induction hs as [|[n v] r IH]; simpl.
  - by rewrite Hne.
  - destruct (same_name n other) eqn:E; simpl.
    + rewrite Hne. destruct (same_name n name) eqn:E'; [|done].
      unfold same_name in *.
      apply bool_decide_eq_true in E, E'. apply bool_decide_eq_false in Hne.
      congruence.
    + by rewrite IH.
Qed.

(** ** The [cors] package *)

Lemma get_header_apply_other name key value res :
  same_name key name = false ->
  get_header name (res_headers (apply_header key value res))
  = get_header name (res_headers res).
Proof.
  intros Hne. unfold apply_header. destruct (truthy_opt value); [|done].
  by apply get_set_header_other.
Qed.

Lemma get_header_apply_same name value res :
  get_header name (res_headers (apply_header name value res))
  = match value with
    | Some (c :: v) => Some (c :: v)
    | _ => get_header name (res_headers res)
    end.
Proof.
  unfold apply_header. destruct value as [[|c v]|]; simpl; [done| |done].
  apply get_set_header_same.
Qed.

Lemma get_header_vary_other name field res :
  same_name (str "Vary") name = false ->
  get_header name (res_headers (vary field res)) = get_header name (res_headers res).
Proof.
  intros Hne. unfold vary. destruct (truthy_str _); [|done].
  by apply get_set_header_other.
Qed.

Lemma corsOptions_origin_blocks W origin :
  origin_blocked W origin = true ->
  corsOptions_origin W origin = CallbackError (Error (str "Not allowed by CORS")).
Proof.
  unfold origin_blocked, corsOptions_origin.
  intros [-> ->%negb_true_iff]%andb_true_iff. done.
Qed.

Lemma corsOptions_origin_allows W origin :
  origin_blocked W origin = false -> corsOptions_origin W origin = CallbackAllow.
Proof.
  unfold origin_blocked, corsOptions_origin.
  destruct (truthy_opt origin); [|done]. simpl.
  by intros ->%negb_false_iff.
Qed.

(** Looking up a header behind the headers set after it. *)
Ltac through_headers :=
  repeat first
    [ rewrite get_set_header_other by done
    | rewrite get_header_apply_other by done
    | rewrite get_header_vary_other by done
    | progress cbn [res_headers header] ].

(** A request the package hands on is the request it was given; with the
    options of the file it is no preflight, and for the options with the
    whitelist its origin is none the whitelist blocks. *)
Lemma cors_package_hands_on options x x' :
  cors_package options x = Next x' ->
  ex_req x' = ex_req x /\ ex_heap x' = ex_heap x /\ ex_log x' = ex_log x
  /\ (opt_preflightContinue options <> Some true -> is_preflight (ex_req x) = false).
Proof.
  unfold cors_package.
  destruct (match opt_origin options with
            | OriginTrue => CallbackAllow
            | OriginFunction f => f (req_origin (ex_req x))
            end); [|done].
  destruct (is_preflight (ex_req x)).
  - destruct (opt_preflightContinue options) as [[|]|]; simpl; [|done|done].
    intros [= <-]. by repeat split.
  - intros [= <-]. by repeat split.
Qed.

Lemma cors_package_whitelist W x x' :
  cors_package (corsOptions W) x = Next x' ->
  origin_blocked W (req_origin (ex_req x)) = false.
Proof.
  destruct (origin_blocked W (req_origin (ex_req x))) eqn:E; [|done].
  unfold cors_package. cbn [corsOptions opt_origin].
  by rewrite (corsOptions_origin_blocks _ _ E).
Qed.

Lemma cors_package_blocked W x :
  origin_blocked W (req_origin (ex_req x)) = true ->
  cors_package (corsOptions W) x = Fail (Error (str "Not allowed by CORS")) x.
Proof.
  intros E. unfold cors_package. cbn [corsOptions opt_origin].
  by rewrite (corsOptions_origin_blocks _ _ E).
Qed.

(** ** The middlewares of the file in the pipeline *)

(** C3. A preflight is answered by the first middleware of the [cors]
    package, whatever its origin: status 204, nothing in the body, and the
    methods of the package's default, which have no [OPTIONS] among them,
    in [Access-Control-Allow-Methods].  No later stage runs: the CORS
    header middleware of the file, which sets the header with [OPTIONS]
    and has an answer for preflights of its own, does not see one. *)
Theorem preflight_answered_by_cors pkg lib depth W x x1 :
  cors pkg = cors_package ->
  reaches (app pkg lib depth W) CorsCompulsory x x1 ->
  is_preflight (ex_req x1) = true ->
  exists t x2,
    dispatch (app pkg lib depth W) None x = (t ++ [(CorsCompulsory, Ended)], Finished x2)
    /\ stages_of t `sublist_of` [CookieParser; BodyParserJson; BodyParserUrlencoded; Logger]
    /\ ex_req x2 = ex_req x1
    /\ res_status (ex_res x2) = 204
    /\ res_sent (ex_res x2) = Some Empty
    /\ get_header (str "Access-Control-Allow-Methods") (res_headers (ex_res x2))
       = Some (str "GET,HEAD,PUT,PATCH,POST,DELETE")
    /\ get_header (str "Access-Control-Allow-Credentials") (res_headers (ex_res x2))
       = Some (str "true")
    /\ get_header (str "Content-Length") (res_headers (ex_res x2)) = Some (str "0")
    /\ get_header (str "Access-Control-Allow-Origin") (res_headers (ex_res x2))
       = match req_origin (ex_req x1) with
         | Some (c :: o) => Some (c :: o)
         | _ => get_header (str "Access-Control-Allow-Origin") (res_headers (ex_res x1))
         end
    /\ get_header (str "Access-Control-Allow-Headers") (res_headers (ex_res x2))
       = match req_request_headers (ex_req x1) with
         | Some (c :: v) => Some (c :: v)
         | _ => get_header (str "Access-Control-Allow-Headers") (res_headers (ex_res x1))
         end.
Proof.
  intros Hcors [t Hup] Hpre.
  pose proof (dispatch_in_order (upstream CorsCompulsory (app pkg lib depth W)) None x)
    as Hord.
  change (app pkg lib depth W)
    with (upstream CorsCompulsory (app pkg lib depth W)
          ++ Layer CorsCompulsory every_request (Middleware (cors pkg compulsory_options))
             :: drop 5 (app pkg lib depth W)).
  rewrite dispatch_app, Hup in *.
  cbn [dispatch layer_step layer_match layer_fn every_request layer_stage].
  rewrite Hcors. unfold cors_package. cbn [compulsory_options opt_origin]. rewrite Hpre.
  cbn [opt_preflightContinue default].
  eexists _, _. split; [done|]. split; [exact Hord|]. split; [done|].
  unfold configureMaxAge, configureAllowedHeaders, configureMethods,
    configureCredentials, configureOrigin.
  cbn [ex_res with_res res_status res_sent res_headers send status header
       compulsory_options opt_optionsSuccessStatus opt_maxAge opt_allowedHeaders
       opt_methods opt_credentials default fmap option_fmap option_map].
  split; [done|]. split; [done|].
  change (apply_header (str "Access-Control-Max-Age") None ?r) with r.
  change (apply_header (str "Access-Control-Allow-Methods") (Some default_methods) ?r)
    with (header (str "Access-Control-Allow-Methods") default_methods r).
  repeat split.
  - through_headers. apply get_set_header_same.
  - through_headers. apply get_set_header_same.
  - apply get_set_header_same.
  - through_headers. by rewrite get_header_apply_same.
  - rewrite get_set_header_other by done. rewrite get_header_apply_same.
    destruct (req_request_headers (ex_req x1)) as [[|c v]|]; try done.
    all: by through_headers.
Qed.

Lemma preflight_answered_by_cors_witness :
  exists t x2,
    dispatch (app plain_packages plain_lib 8 [str "https://shop.example"]) None
      (incoming "OPTIONS" "/clientApis/v1/search" (Some "https://shop.example"%string)
         [] VUndefined)
    = (t ++ [(CorsCompulsory, Ended)], Finished x2)
    /\ res_status (ex_res x2) = 204
    /\ res_sent (ex_res x2) = Some Empty
    /\ get_header (str "Access-Control-Allow-Methods") (res_headers (ex_res x2))
       = Some (str "GET,HEAD,PUT,PATCH,POST,DELETE")
    /\ get_header (str "Access-Control-Allow-Origin") (res_headers (ex_res x2))
       = Some (str "https://shop.example").
Proof.
  destruct (preflight_answered_by_cors plain_packages plain_lib 8
              [str "https://shop.example"]
              (incoming "OPTIONS" "/clientApis/v1/search"
                 (Some "https://shop.example"%string) [] VUndefined)
              (incoming "OPTIONS" "/clientApis/v1/search"
                 (Some "https://shop.example"%string) [] VUndefined))
    as (t & x2 & H1 & _ & _ & H2 & H3 & H4 & _ & _ & H5 & _).
  - reflexivity.
  - eexists. vm_compute. reflexivity.
  - vm_compute. reflexivity.
  - exists t, x2. auto.
Defined.

(** The whole answer to that preflight. *)
Example preflight_run :
  dispatch (app plain_packages plain_lib 8 [str "https://shop.example"]) None
    (incoming "OPTIONS" "/clientApis/v1/search" (Some "https://shop.example"%string)
       [] VUndefined)
  = ([(CookieParser, Passed); (BodyParserJson, Passed); (BodyParserUrlencoded, Passed);
      (Logger, Passed); (CorsCompulsory, Ended)],
     Finished
       (with_res
          {| res_status := 204;
             res_headers :=
               [(str "Access-Control-Allow-Origin", str "https://shop.example");
                (str "Vary", str "Origin, Access-Control-Request-Headers");
                (str "Access-Control-Allow-Credentials", str "true");
                (str "Access-Control-Allow-Methods", str "GET,HEAD,PUT,PATCH,POST,DELETE");
                (str "Content-Length", str "0")];
             res_sent := Some Empty |}
          (incoming "OPTIONS" "/clientApis/v1/search"
             (Some "https://shop.example"%string) [] VUndefined))).
Proof. vm_compute. reflexivity. Qed.

(** A request the CORS header middleware hands on is not a preflight. *)
Lemma guard_not_reached_by_preflight pkg lib depth W x x1 :
  reaches (app pkg lib depth W) OriginGuard x x1 ->
  req_method (ex_req x1) <> str "OPTIONS".
Proof.
  intros [t Hup].
  change (upstream OriginGuard (app pkg lib depth W))
    with (upstream CorsHeaders (app pkg lib depth W)
          ++ [Layer CorsHeaders every_request (Middleware cors_headers)]) in Hup.
  rewrite dispatch_app in Hup.
  destruct (dispatch (upstream CorsHeaders (app pkg lib depth W)) None x)
    as [t1 [[e|] x0|x0]]; [| |done].
  - cbn [dispatch layer_step layer_match layer_fn every_request] in Hup. done.
  - cbn [dispatch layer_step layer_match layer_fn every_request layer_stage] in Hup.
    unfold cors_headers in Hup. case_bool_decide as Hm; [done|].
    by injection Hup as _ <-.
Qed.

(** With an error pending, the middlewares from the CORS header middleware
    to the Mongo sanitizer are passed over. *)
Lemma error_skips_to_logger pkg lib depth W e x :
  dispatch (drop 6 (app pkg lib depth W)) (Some e) x
  = dispatch (drop 13 (app pkg lib depth W)) (Some e) x.
Proof.
  cbn [drop app dispatch]. unfold layer_step.
  cbn [layer_match layer_fn every_request].
  by destruct (mounted pkg (str "/clientApis") (ex_req x)).
Qed.

(** C1. A request from an origin that is present, not the empty string and
    not in the whitelist does not come to the origin-blocking middleware:
    the second middleware of the [cors] package, to which the file gives
    the same whitelist, fails it with the error [Not allowed by CORS].
    From there on only the error logger has a say, and the fallback route
    after it; the CORS header middleware and the origin-blocking
    middleware, with its answer of status 403, do not run. *)
Theorem blocked_origin_fails_in_cors pkg lib depth W x x1 o :
  cors pkg = cors_package ->
  reaches (app pkg lib depth W) CorsEnhanced x x1 ->
  req_origin (ex_req x1) = Some o ->
  o <> [] ->
  o ∉ W ->
  exists t0 t1 p,
    dispatch (app pkg lib depth W) None x = (t0 ++ (CorsEnhanced, Failed) :: t1, p)
    /\ dispatch [Layer LogErrors every_request (logErrors pkg);
                 Layer NotFound is_get (Middleware not_found)]
         (Some (Error (str "Not allowed by CORS"))) x1 = (t1, p)
    /\ (CorsHeaders ∉ stages_of (t0 ++ (CorsEnhanced, Failed) :: t1))
    /\ (OriginGuard ∉ stages_of (t0 ++ (CorsEnhanced, Failed) :: t1)).
Proof.
  intros Hcors [t0 Hup] Ho Hne Hout.
  pose proof (dispatch_in_order (upstream CorsEnhanced (app pkg lib depth W)) None x)
    as Hord0.
  rewrite Hup in Hord0.
  assert (origin_blocked W (req_origin (ex_req x1)) = true) as Hblocked.
  { unfold origin_blocked. rewrite Ho. cbn [truthy_opt includes_opt].
    apply truthy_str_nonempty in Hne. rewrite Hne.
    destruct (includes W o) eqn:E; [|done]. by apply includes_elem in E. }
  change (app pkg lib depth W)
    with (upstream CorsEnhanced (app pkg lib depth W)
          ++ Layer CorsEnhanced every_request (Middleware (cors pkg (corsOptions W)))
             :: drop 6 (app pkg lib depth W)).
  rewrite dispatch_app, Hup.
  cbn [dispatch layer_step layer_match layer_fn every_request layer_stage].
  rewrite Hcors, (cors_package_blocked _ _ Hblocked), error_skips_to_logger.
  change (drop 13 (app pkg lib depth W))
    with [Layer LogErrors every_request (logErrors pkg);
          Layer NotFound is_get (Middleware not_found)].
  pose proof (dispatch_in_order
                [Layer LogErrors every_request (logErrors pkg);
                 Layer NotFound is_get (Middleware not_found)]
                (Some (Error (str "Not allowed by CORS"))) x1) as Hord1.
  destruct (dispatch _ (Some (Error (str "Not allowed by CORS"))) x1) as [t1 p] eqn:Hrest.
  exists t0, t1, p. split; [done|]. split; [first [exact Hrest|reflexivity]|].
  assert (forall s, s ∈ stages_of (t0 ++ (CorsEnhanced, Failed) :: t1) ->
            s ∈ [CookieParser; BodyParserJson; BodyParserUrlencoded; Logger;
                 CorsCompulsory; CorsEnhanced; LogErrors; NotFound]) as Hin.
  { intros s. unfold stages_of. rewrite fmap_app, fmap_cons, elem_of_app, elem_of_cons.
    intros [Hs|[->|Hs]].
    - pose proof (elem_of_sublist _ _ _ Hs Hord0) as Hs'.
      change (s ∈ [CookieParser; BodyParserJson; BodyParserUrlencoded; Logger;
                   CorsCompulsory]) in Hs'.
      rewrite !elem_of_cons in *. tauto.
    - rewrite !elem_of_cons. tauto.
    - pose proof (elem_of_sublist _ _ _ Hs Hord1) as Hs'.
      change (s ∈ [LogErrors; NotFound]) in Hs'.
      rewrite !elem_of_cons in *. tauto. }
  split; intros Hs%Hin; by apply (bool_decide_eq_true_2 _) in Hs.
Qed.

Lemma blocked_origin_fails_in_cors_witness :
  exists t0 t1 p,
    dispatch (app plain_packages plain_lib 8 [str "https://shop.example"]) None
      (incoming "GET" "/clientApis/v1/on_search" (Some "https://evil.example"%string)
         [] VUndefined)
    = (t0 ++ (CorsEnhanced, Failed) :: t1, p)
    /\ (OriginGuard ∉ stages_of (t0 ++ (CorsEnhanced, Failed) :: t1)).
Proof.
  pose proof (fun x1 =>
                blocked_origin_fails_in_cors plain_packages plain_lib 8
                  [str "https://shop.example"]
                  (incoming "GET" "/clientApis/v1/on_search"
                     (Some "https://evil.example"%string) [] VUndefined)
                  x1 (str "https://evil.example")) as H.
  edestruct H as (t0 & t1 & p & H1 & _ & _ & H2).
  - reflexivity.
  - eexists. vm_compute. reflexivity.
  - vm_compute. reflexivity.
  - discriminate.
  - apply (bool_decide_eq_false_1 _). vm_compute. reflexivity.
  - exists t0, t1, p. auto.
Defined.

(** The whole run of that request: the error is still pending when the
    layers are through, and Express's final handler answers it. *)
Example blocked_origin_run :
  let x := incoming "GET" "/clientApis/v1/on_search"
             (Some "https://evil.example"%string) [] VUndefined in
  dispatch (app plain_packages plain_lib 8 [str "https://shop.example"]) None x
  = ([(CookieParser, Passed); (BodyParserJson, Passed); (BodyParserUrlencoded, Passed);
      (Logger, Passed); (CorsCompulsory, Passed); (CorsEnhanced, Failed);
      (LogErrors, Failed)],
     Pending (Some (Error (str "Not allowed by CORS")))
       (with_res
          {| res_status := 200;
             res_headers :=
               [(str "Access-Control-Allow-Origin", str "https://evil.example");
                (str "Vary", str "Origin");
                (str "Access-Control-Allow-Credentials", str "true")];
             res_sent := None |} x)).
Proof. vm_compute. reflexivity. Qed.



(** ** Shapes and the store *)

Lemma shape_induction (P : shape -> Prop) :
  P SUndefined -> P SNull -> (forall b, P (SBool b)) -> (forall n, P (SNum n)) -> P SStr ->
  (forall ss, Forall P ss -> P (SArr ss)) ->
  (forall kss inh, Forall (fun ks => P ks.2) kss -> P (SObj kss inh)) ->
  forall s, P s.
Proof.
  intros HU HN HB HD HS HA HO. fix IH 1. intros [| |b|n| |ss|kss inh].
  - exact HU.
  - exact HN.
  - apply HB.
  - apply HD.
  - exact HS.
  - apply HA. induction ss as [|s ss IHss]; constructor; [apply IH|exact IHss].
  - apply HO. induction kss as [|[k s] kss IHkss]; constructor; [apply IH|exact IHkss].
Qed.

Section All2.

Context {A B : Type}.

Lemma all2_impl (f g : A -> B -> bool) l1 l2 :
  Forall (fun a => forall b, f a b = true -> g a b = true) l1 ->
  all2 f l1 l2 = true -> all2 g l1 l2 = true.
Proof.
  intros Hall. revert l2.
  induction Hall as [|a l1 Ha _ IH]; intros [|b l2]; simpl; try done.
  intros [Hab Hrest]%andb_prop. by rewrite (Ha b Hab), (IH l2 Hrest).
Qed.

Lemma all2_mono (f g : A -> B -> bool) l1 l2 :
  (forall a b, f a b = true -> g a b = true) ->
  all2 f l1 l2 = true -> all2 g l1 l2 = true.
Proof. intros H. apply all2_impl, Forall_forall. auto. Qed.

Lemma all2_length (f : A -> B -> bool) l1 l2 :
  all2 f l1 l2 = true -> length l1 = length l2.
Proof.
  revert l2. induction l1 as [|a l1 IH]; intros [|b l2]; simpl; try done.
  intros [_ Hrest]%andb_prop. by rewrite (IH l2).
Qed.

End All2.

Lemma prop_shaped_keys f kss own :
  all2 (prop_shaped f) kss own = true -> kss.*1 = own.*1.
Proof.
  revert own. induction kss as [|[k s] kss IH]; intros [|[k' v] own]; simpl; try done.
  unfold prop_shaped at 1. simpl.
  intros [[Hk _]%andb_prop Hrest]%andb_prop.
  apply bool_decide_eq_true in Hk as ->. f_equal. by apply IH.
Qed.

Lemma prop_shaped_impl f g kss own :
  Forall (fun ks => forall v, f ks.2 v = true -> g ks.2 v = true) kss ->
  all2 (prop_shaped f) kss own = true -> all2 (prop_shaped g) kss own = true.
Proof.
  intros Hall. apply all2_impl. eapply Forall_impl; [exact Hall|].
  intros [k s] H [k' v]. unfold prop_shaped. simpl in *.
  intros [-> Hf]%andb_prop. by rewrite (H v Hf).
Qed.

(** The values of a property in two states of an object of one shape have
    the same shape. *)
Lemma prop_shaped_get f g kss own own' key v v' :
  all2 (prop_shaped f) kss own = true ->
  all2 (prop_shaped g) kss own' = true ->
  get_own key own = Some v -> get_own key own' = Some v' ->
  exists s, (key, s) ∈ kss /\ f s v = true /\ g s v' = true.
Proof.
  revert own own'.
  induction kss as [|[k s] kss IH]; intros [|[k1 v1] own] [|[k2 v2] own'];
    simpl; try done.
  unfold prop_shaped at 1 3. simpl.
  intros [[Hk1 Hf]%andb_prop Hrest]%andb_prop [[Hk2 Hg]%andb_prop Hrest']%andb_prop.
  apply bool_decide_eq_true in Hk1 as <-. apply bool_decide_eq_true in Hk2 as <-.
  case_bool_decide as Hk.
  - intros [= <-] [= <-]. subst. exists s. split; [by left|done].
  - intros Hv Hv'. destruct (IH own own' Hrest Hrest' Hv Hv') as (s' & Hin & H).
    exists s'. split; [by right|done].
Qed.

Lemma has_own_elem key own : has_own key own = true <-> key ∈ own.*1.
Proof.
  unfold has_own. rewrite bool_decide_eq_true.
  induction own as [|[k v] own IH]; simpl.
  - split; [by intros [? ?]|by intros ?%not_elem_of_nil].
  - rewrite elem_of_cons. case_bool_decide; subst.
    + split; [by left|by eexists].
    + rewrite IH. split; [by right|by intros [?|?]].
Qed.

Lemma has_shape_alloc h h2 s v :
  has_shape h s v = true -> has_shape (h ++ h2) s v = true.
Proof.
  revert v. induction s as [| | | | |ss IH|kss inh IH] using shape_induction;
    intros [| | | | |l]; simpl; try done.
  - destruct (h !! l) as [[vs|own inh']|] eqn:E; try done.
    rewrite (lookup_app_l_Some _ _ _ _ E). by apply all2_impl.
  - destruct (h !! l) as [[vs|own inh']|] eqn:E; try done.
    rewrite (lookup_app_l_Some _ _ _ _ E).
    intros [-> Hown]%andb_prop. simpl.
    by apply (prop_shaped_impl (has_shape h)).
Qed.

(** A value has one shape. *)
Lemma has_shape_unique h s s' v :
  has_shape h s v = true -> has_shape h s' v = true -> s = s'.
Proof.
  revert s' v. induction s as [| |b|n| |ss IH|kss inh IH] using shape_induction;
    intros [| |b'|n'| |ss'|kss' inh'] [| |b''|n''| |l]; simpl; try done.
  - by intros ->%bool_decide_eq_true ->%bool_decide_eq_true.
  - by intros ->%bool_decide_eq_true ->%bool_decide_eq_true.
  - destruct (h !! l) as [[vs|own inh0]|]; try done.
    intros H1 H2. f_equal. revert ss' vs H1 H2.
    induction IH as [|s ss Hs _ IHss]; intros [|s' ss'] [|v vs]; simpl; try done.
    intros [Hv Hr]%andb_prop [Hv' Hr']%andb_prop.
    f_equal; [by apply (Hs s' v)|by apply (IHss ss' vs)].
  - destruct (h !! l) as [[vs|own inh0]|]; try done.
  - destruct (h !! l) as [[vs|own inh0]|]; try done.
  - destruct (h !! l) as [[vs|own inh0]|]; try done.
    intros [->%bool_decide_eq_true H1]%andb_prop [->%bool_decide_eq_true H2]%andb_prop.
    f_equal. revert kss' own H1 H2.
    induction IH as [|[k s] kss Hs _ IHkss]; intros [|[k' s'] kss'] [|[k0 v] own];
      simpl; try done.
    unfold prop_shaped at 1 3. simpl.
    intros [[->%bool_decide_eq_true Hv]%andb_prop Hr]%andb_prop
           [[->%bool_decide_eq_true Hv']%andb_prop Hr']%andb_prop.
    f_equal; [f_equal; by apply (Hs s' v)|by apply (IHkss kss' own)].
Qed.

Lemma set_own_shaped (g g' : shape -> value -> bool) key v' kss own :
  Forall (fun ks => forall w, g ks.2 w = true -> g' ks.2 w = true) kss ->
  (forall old s, get_own key own = Some old -> g s old = true -> g s v' = true) ->
  all2 (prop_shaped g) kss own = true ->
  all2 (prop_shaped g') kss (set_own key v' own) = true.
Proof.
  intros Hall. revert own.
  induction Hall as [|[k s] kss Hs Hall IH]; intros [|[k1 v1] own]; simpl; try done.
  unfold prop_shaped at 1. simpl in *.
  intros Hrep [[->%bool_decide_eq_true Hv]%andb_prop Hrest]%andb_prop.
  case_bool_decide as Hk; simpl; unfold prop_shaped at 1; simpl.
  - rewrite bool_decide_eq_true_2 by done.
    rewrite (Hs v') by (by apply (Hrep v1)). simpl.
    by apply (prop_shaped_impl g).
  - rewrite bool_decide_eq_true_2 by done. rewrite (Hs v1 Hv). simpl.
    by apply IH.
Qed.

(** Assigning to a property a value of the shape of the one it holds
    changes no shape in the store. *)
Lemma has_shape_update h l own inh key v' :
  h !! l = Some (OPlain own inh) ->
  (forall old s, get_own key own = Some old ->
                 has_shape h s old = true -> has_shape h s v' = true) ->
  keeps_shapes h (<[l := OPlain (set_own key v' own) inh]> h).
Proof.
  intros Hl Hrep. split; [by rewrite length_insert|].
  intros s. induction s as [| | | | |ss IH|kss inh0 IH] using shape_induction;
    intros [| | | | |l0]; simpl; try done.
  - destruct (decide (l = l0)) as [<-|Hne].
    + by rewrite Hl.
    + rewrite list_lookup_insert_ne by done.
      destruct (h !! l0) as [[vs|own0 inh1]|]; try done. by apply all2_impl.
  - destruct (decide (l = l0)) as [<-|Hne].
    + rewrite Hl, list_lookup_insert_eq by (by eapply lookup_lt_Some).
      intros [-> Hown]%andb_prop. simpl.
      by apply (set_own_shaped (has_shape h)).
    + rewrite list_lookup_insert_ne by done.
      destruct (h !! l0) as [[vs|own0 inh1]|]; try done.
      intros [-> Hown]%andb_prop. simpl.
      by apply (prop_shaped_impl (has_shape h)).
Qed.

Lemma keeps_shapes_refl h : keeps_shapes h h.
Proof. by split. Qed.

Lemma keeps_shapes_trans h1 h2 h3 :
  keeps_shapes h1 h2 -> keeps_shapes h2 h3 -> keeps_shapes h1 h3.
Proof. intros [L1 H1] [L2 H2]. split; [lia|auto]. Qed.

Lemma keeps_shapes_alloc h o : keeps_shapes h (h ++ [o]).
Proof.
  split; [rewrite length_app; lia|]. intros s v. apply has_shape_alloc.
Qed.

(** ** The sanitizer on values of a given shape *)

Lemma height_elems ss n :
  height (SArr ss) < S n -> Forall (fun s => height s < n) ss.
Proof.
  simpl. intros H. apply Nat.succ_lt_mono in H.
  induction ss as [|s ss IH]; constructor; simpl in H; [lia|apply IH; lia].
Qed.

Lemma height_props kss inh n :
  height (SObj kss inh) < S n -> Forall (fun ks => height ks.2 < n) kss.
Proof.
  simpl. intros H. apply Nat.succ_lt_mono in H.
  induction kss as [|ks kss IH]; constructor; simpl in H; [lia|apply IH; lia].
Qed.

Lemma array_map_shapes f n :
  sanitizes f n ->
  forall vs ss h,
    Forall (fun s => height s < n) ss ->
    forallb method_visible ss = true ->
    all2 (has_shape h) ss vs = true ->
    exists h' vs',
      array_map f h vs = Ok (h', vs')
      /\ all2 (has_shape h') ss vs' = true
      /\ keeps_shapes h h'.
Proof.
  intros Hf. induction vs as [|v vs IH]; intros [|s ss] h Hh Hm Hs; simpl in *; try done.
  - exists h, []. by repeat split.
  - apply andb_prop in Hm as [Hm Hms]. apply andb_prop in Hs as [Hv Hvs].
    apply Forall_cons in Hh as [Hh Hhs].
    destruct (Hf h v s Hh Hm Hv) as (h1 & v' & -> & Hv' & Hk1 & _). simpl.
    destruct (IH ss h1 Hhs Hms) as (h2 & vs' & -> & Hvs' & Hk2).
    { eapply all2_mono; [|exact Hvs]. apply Hk1. }
    simpl. exists h2, (v' :: vs'). split; [done|]. split.
    + simpl. by rewrite (proj2 Hk2 _ _ Hv'), Hvs'.
    + by eapply keeps_shapes_trans.
Qed.

Lemma for_in_cons f l h key r :
  for_in f l h (key :: r) =
  match h !! l with
  | Some (OPlain own inh) =>
      if has_own (str "hasOwnProperty") own then
        Throw h (TypeError not_a_function)
      else if has_own key own then
        match get_own key own with
        | Some v =>
            '(h1, v') ← f h v;
            match h1 !! l with
            | Some (OPlain own1 inh1) =>
                for_in f l (<[l := OPlain (set_own key v' own1) inh1]> h1) r
            | _ => Throw h1 (Dangling l)
            end
        | None => for_in f l h r
        end
      else for_in f l h r
  | _ => Throw h (Dangling l)
  end.
Proof. reflexivity. Qed.

Lemma for_in_shapes f n l kss inh :
  sanitizes f n ->
  Forall (fun ks => height ks.2 < n) kss ->
  forallb (fun ks => method_visible ks.2) kss = true ->
  str "hasOwnProperty" ∉ kss.*1 ->
  forall keys h,
    has_shape h (SObj kss inh) (VRef l) = true ->
    exists h', for_in f l h keys = Ok h' /\ keeps_shapes h h'.
Proof.
  intros Hf Hh Hm Hmeth. induction keys as [|key r IH]; intros h Hs.
  { exists h. split; [done|apply keeps_shapes_refl]. }
  pose proof Hs as Hobj. simpl in Hobj. rewrite for_in_cons.
  destruct (h !! l) as [[vs|own inh']|] eqn:Hl; try done.
  apply andb_prop in Hobj as [->%bool_decide_eq_true Hown].
  assert (has_own (str "hasOwnProperty") own = false) as ->.
  { destruct (has_own _ own) eqn:E; [|done].
    apply has_own_elem in E. by rewrite <- (prop_shaped_keys _ _ _ Hown) in E. }
  destruct (has_own key own); [|by apply IH].
  destruct (get_own key own) as [v|] eqn:Hv; [|by apply IH].
  destruct (prop_shaped_get _ _ kss own own key v v Hown Hown Hv Hv) as (s & Hin & Hsv & _).
  assert (height s < n) as Hhs.
  { rewrite Forall_forall in Hh. apply (Hh (key, s) Hin). }
  assert (method_visible s = true) as Hms.
  { rewrite forallb_forall in Hm. apply (Hm (key, s)). by apply list_elem_of_In. }
  destruct (Hf h v s Hhs Hms Hsv) as (h1 & v' & -> & Hv' & Hk1 & _). simpl.
  pose proof (proj2 Hk1 _ _ Hs) as Hobj1. simpl in Hobj1.
  destruct (h1 !! l) as [[vs|own1 inh1]|] eqn:Hl1; try done.
  apply andb_prop in Hobj1 as [->%bool_decide_eq_true Hown1].
  assert (keeps_shapes h1 (<[l := OPlain (set_own key v' own1) inh1]> h1)) as Hk2.
  { apply has_shape_update; [done|]. intros old sk Hold Hsk.
    destruct (prop_shaped_get _ _ kss own own1 key v old Hown Hown1 Hv Hold)
      as (s' & _ & Hs'v & Hs'old).
    rewrite (has_shape_unique h1 sk s' old Hsk Hs'old).
    by rewrite (has_shape_unique h s' s v Hs'v Hsv). }
  destruct (IH (<[l := OPlain (set_own key v' own1) inh1]> h1)) as (h' & -> & Hk3).
  { apply Hk2, Hk1, Hs. }
  exists h'. split; [done|]. eauto using keeps_shapes_trans.
Qed.

Lemma sanitize_sanitizes lib n : sanitizes (sanitize lib n) n.
Proof.
  induction n as [|n IH]; intros h v s Hh Hm Hs; [lia|].
  destruct s as [| |b|m| |ss|kss inh], v as [| |b'|m'|t|l]; try done.
  - exists h, VUndefined. repeat split; auto.
  - exists h, VNull. repeat split; auto.
  - exists h, (VBool b'). repeat split; auto.
  - exists h, (VNum m'). repeat split; auto.
  - rewrite sanitize_string. eexists _, _. split; [done|].
    repeat split; auto. by eexists.
  - pose proof Hs as Harr. simpl in Harr |- *. unfold returned.
    destruct (h !! l) as [[vs|own inh']|] eqn:Hl; try done.
    destruct (array_map_shapes _ n IH vs ss h) as (h1 & vs' & -> & Hvs' & Hk1);
      [by apply height_elems|done|done|].
    simpl. eexists _, _. split; [done|].
    pose proof (keeps_shapes_alloc h1 (OArray vs')) as Hk2.
    split; [|split; [by eapply keeps_shapes_trans|]].
    + simpl. rewrite list_lookup_middle by done.
      eapply all2_mono; [|exact Hvs']. apply Hk2.
    + exists (length h1). split; [done|].
      apply lookup_ge_None_2. apply Hk1.
  - pose proof Hs as Hobj. simpl in Hobj |- *. unfold returned.
    destruct (h !! l) as [[vs|own inh']|] eqn:Hl; try done.
    change (negb (bool_decide (str "hasOwnProperty" ∈ kss.*1))
            && forallb (fun ks => method_visible ks.2) kss = true) in Hm.
    apply andb_prop in Hm as [Hmeth Hm].
    apply negb_true_iff, bool_decide_eq_false in Hmeth.
    destruct (for_in_shapes _ n l kss inh IH (height_props _ _ _ Hh) Hm Hmeth
                (own.*1 ++ inh') h Hs) as (h1 & -> & Hk1).
    simpl. eexists _, _. split; [done|].
    split; [exact (proj2 Hk1 _ _ Hs)|]. by split.
Qed.

(** C5, amended. On a finite, acyclic value none of whose objects has an
    own property called [hasOwnProperty], [sanitize] returns, given room
    for the nested calls, a value of the shape of its argument: the same
    leaves but for the text of the strings, arrays of the same length in
    the same order, objects with the same own keys and the same inherited
    ones.  For an array it returns a new array; for an object it returns
    the object itself, updated in place; and every other value of the
    store keeps its shape. *)
Theorem sanitize_preserves_shape lib depth h v s :
  has_shape h s v = true ->
  method_visible s = true ->
  height s < depth ->
  exists h' v',
    sanitize lib depth h v = Ok (h', v')
    /\ has_shape h' s v' = true
    /\ returned h v v'
    /\ forall s0 w, has_shape h s0 w = true -> has_shape h' s0 w = true.
Proof.
  intros Hs Hm Hh.
  destruct (sanitize_sanitizes lib depth h v s Hh Hm Hs) as (h' & v' & H1 & H2 & H3 & H4).
  exists h', v'. repeat split; try done. apply H3.
Qed.

Lemma sanitize_preserves_shape_witness :
  exists h' v',
    sanitize plain_lib 4 example_store (VRef 0) = Ok (h', v')
    /\ has_shape h' example_shape v' = true
    /\ returned example_store (VRef 0) v'
    /\ forall s0 w, has_shape example_store s0 w = true -> has_shape h' s0 w = true.
Proof.
  apply sanitize_preserves_shape.
  - vm_compute. reflexivity.
  - vm_compute. reflexivity.
  - simpl. lia.
Defined.

(** C5 as stated fails twice.  For an object [sanitize] returns no new
    object: it returns the location it was given, with the properties of
    the object at that location rewritten.  And on an object with an own
    property called [hasOwnProperty] it returns nothing: the call of that
    property throws a [TypeError]. *)
Lemma sanitize_object_in_place :
  example_store !! 2 = Some (OPlain [(str "city", VStr (str " Pune "))] [])
  /\ sanitize plain_lib 4 example_store (VRef 2)
     = Ok (<[2 := OPlain [(str "city", VStr (str "Pune"))] []]> example_store, VRef 2)
  /\ sanitize plain_lib 4 [OPlain [(str "hasOwnProperty", VBool true)] []] (VRef 0)
     = Throw [OPlain [(str "hasOwnProperty", VBool true)] []] (TypeError not_a_function).
Proof. split; [reflexivity|]. split; vm_compute; reflexivity. Qed.

(** * Further properties of the bootstrap file *)

(** ** The CORS header middleware *)

Lemma get_set_header_alias a b v hs :
  same_name a b = true -> get_header b (set_header a v hs) = Some v.
Proof.
  intros Hab. induction hs as [|[n w] r IH]; simpl.
  - by rewrite Hab.
  - destruct (same_name n a) eqn:E; simpl; [by rewrite Hab|].
    destruct (same_name n b) eqn:E'; [|done].
    unfold same_name in *. apply bool_decide_eq_true in Hab, E'.
    apply bool_decide_eq_false in E. congruence.
Qed.

(** X1. The CORS header middleware hands on every request that is not a
    preflight, with the request, the store, the console, the status and
    the unsent body as they were; it overwrites its four headers, in
    whatever case their names were set before, with the origin of the
    request for [Access-Control-Allow-Origin], or [*] when the request has
    none or an empty one, and leaves every other header alone. *)
Theorem cors_headers_hands_on x :
  req_method (ex_req x) <> str "OPTIONS" ->
  exists res,
    cors_headers x = Next (with_res res x)
    /\ res_status res = res_status (ex_res x)
    /\ res_sent res = res_sent (ex_res x)
    /\ get_header (str "access-control-allow-origin") (res_headers res)
       = Some (match req_origin (ex_req x) with
               | Some (c :: o) => c :: o
               | _ => str "*"
               end)
    /\ get_header (str "access-control-allow-credentials") (res_headers res)
       = Some (str "true")
    /\ get_header (str "access-control-allow-methods") (res_headers res)
       = Some (str "GET,HEAD,PUT,PATCH,POST,DELETE,OPTIONS")
    /\ get_header (str "access-control-allow-headers") (res_headers res)
       = Some (str "Origin, X-Requested-With, Content-Type, Accept, Authorization")
    /\ forall name,
         Forall (fun n => same_name n name = false) cors_header_names ->
         get_header name (res_headers res) = get_header name (res_headers (ex_res x)).
Proof.
  intros Hm. unfold cors_headers. rewrite bool_decide_eq_false_2 by done.
  eexists. split; [done|]. cbn [res_status res_sent res_headers header].
  repeat split.
  - rewrite !get_set_header_other by done.
    rewrite get_set_header_alias by done.
    by destruct (req_origin (ex_req x)) as [[|c o]|].
  - rewrite !get_set_header_other by done. by apply get_set_header_alias.
  - rewrite !get_set_header_other by done. by apply get_set_header_alias.
  - by apply get_set_header_alias.
  - intros name Hall. unfold cors_header_names in Hall.
    rewrite !Forall_cons in Hall. destruct Hall as (H1 & H2 & H3 & H4 & _).
    by rewrite !get_set_header_other.
Qed.

Lemma cors_headers_hands_on_witness :
  let x := incoming "POST" "/clientApis/v2/cart/u1" (Some "https://shop.example"%string)
             [] VUndefined in
  let y := incoming "POST" "/clientApis/v2/cart/u1" None [] VUndefined in
  (exists res,
     cors_headers x = Next (with_res res x)
     /\ get_header (str "access-control-allow-origin") (res_headers res)
        = Some (str "https://shop.example"))
  /\ exists res,
       cors_headers y = Next (with_res res y)
       /\ get_header (str "access-control-allow-origin") (res_headers res) = Some (str "*").
Proof.
  split.
  - destruct (cors_headers_hands_on
                (incoming "POST" "/clientApis/v2/cart/u1"
                   (Some "https://shop.example"%string) [] VUndefined))
      as (res & H1 & _ & _ & H2 & _).
    + discriminate.
    + exists res. auto.
  - destruct (cors_headers_hands_on
                (incoming "POST" "/clientApis/v2/cart/u1" None [] VUndefined))
      as (res & H1 & _ & _ & H2 & _).
    + discriminate.
    + exists res. auto.
Defined.

(** ** The two origin checks *)

(** X2. The origin-blocking middleware and [corsOptions.origin] take the
    same decision on every origin, absent and empty ones included: the
    middleware hands the request on, untouched, exactly when the callback
    is called without an error, and answers 403 exactly when it is called
    with one. *)
Theorem origin_checks_agree W x :
  (corsOptions_origin W (req_origin (ex_req x)) = CallbackAllow
   <-> origin_guard W x = Next x)
  /\ ((exists e, corsOptions_origin W (req_origin (ex_req x)) = CallbackError e)
      <-> exists x', origin_guard W x = End x' /\ res_status (ex_res x') = 403).
Proof.
  unfold corsOptions_origin, origin_guard, origin_blocked.
  destruct (truthy_opt (req_origin (ex_req x))); simpl.
  - destruct (includes_opt W (req_origin (ex_req x))); simpl.
    + split; [done|]. split; [by intros [? ?]|by intros (? & ? & ?)].
    + split; [done|]. split; [eauto|eauto].
  - split; [done|]. split; [by intros [? ?]|by intros (? & ? & ?)].
Qed.
(** ** The origin-blocking middleware behind the [cors] package *)

Lemma guard_reached_from_headers pkg lib depth W x x1 :
  reaches (app pkg lib depth W) OriginGuard x x1 ->
  exists x0, reaches (app pkg lib depth W) CorsHeaders x x0 /\ cors_headers x0 = Next x1.
Proof.
  intros [t Hup].
  change (upstream OriginGuard (app pkg lib depth W))
    with (upstream CorsHeaders (app pkg lib depth W)
          ++ [Layer CorsHeaders every_request (Middleware cors_headers)]) in Hup.
  rewrite dispatch_app in Hup.
  destruct (dispatch (upstream CorsHeaders (app pkg lib depth W)) None x)
    as [t1 [[e|] x0|x0]] eqn:E; [| |done].
  - cbn [dispatch layer_step layer_match layer_fn every_request] in Hup. done.
  - exists x0. split; [by exists t1|].
    cbn [dispatch layer_step layer_match layer_fn every_request layer_stage] in Hup.
    destruct (cors_headers x0) as [x'|e x'|x']; [|done|done].
    by injection Hup as _ <-.
Qed.

Lemma headers_reached_from_cors pkg lib depth W x x1 :
  reaches (app pkg lib depth W) CorsHeaders x x1 ->
  exists x0, reaches (app pkg lib depth W) CorsEnhanced x x0
             /\ cors pkg (corsOptions W) x0 = Next x1.
Proof.
  intros [t Hup].
  change (upstream CorsHeaders (app pkg lib depth W))
    with (upstream CorsEnhanced (app pkg lib depth W)
          ++ [Layer CorsEnhanced every_request (Middleware (cors pkg (corsOptions W)))])
    in Hup.
  rewrite dispatch_app in Hup.
  destruct (dispatch (upstream CorsEnhanced (app pkg lib depth W)) None x)
    as [t1 [[e|] x0|x0]] eqn:E; [| |done].
  - cbn [dispatch layer_step layer_match layer_fn every_request] in Hup. done.
  - exists x0. split; [by exists t1|].
    cbn [dispatch layer_step layer_match layer_fn every_request layer_stage] in Hup.
    destruct (cors pkg (corsOptions W) x0) as [x'|e x'|x']; [|done|done].
    by injection Hup as _ <-.
Qed.

Lemma cors_headers_request x x' : cors_headers x = Next x' -> ex_req x' = ex_req x.
Proof. unfold cors_headers. destruct (bool_decide _); [done|]. by intros [= <-]. Qed.

(** X3. The origin-blocking middleware blocks nothing.  A request that
    comes to it has passed the second middleware of the [cors] package,
    which the file gives the same whitelist and which fails every origin
    the origin-blocking middleware would answer 403 to: the middleware
    hands on, untouched, every request it sees. *)
Theorem origin_guard_never_blocks pkg lib depth W x x1 :
  cors pkg = cors_package ->
  reaches (app pkg lib depth W) OriginGuard x x1 ->
  origin_blocked W (req_origin (ex_req x1)) = false
  /\ origin_guard W x1 = Next x1.
Proof.
  intros Hcors Hreach.
  destruct (guard_reached_from_headers _ _ _ _ _ _ Hreach) as (x0 & Hreach0 & Hx0).
  destruct (headers_reached_from_cors _ _ _ _ _ _ Hreach0) as (x' & _ & Hx').
  rewrite Hcors in Hx'.
  pose proof (cors_package_whitelist _ _ _ Hx') as Hallowed.
  destruct (cors_package_hands_on _ _ _ Hx') as (Hreq & _).
  apply cors_headers_request in Hx0.
  rewrite <- Hreq, <- Hx0 in Hallowed.
  split; [done|]. unfold origin_guard. by rewrite Hallowed.
Qed.

Lemma origin_guard_never_blocks_witness :
  exists x1,
    reaches (app plain_packages plain_lib 8 [str "https://shop.example"]) OriginGuard
      (incoming "GET" "/clientApis/v1/on_search" (Some "https://shop.example"%string)
         [] VUndefined) x1
    /\ origin_guard [str "https://shop.example"] x1 = Next x1.
Proof.
  eassert (reaches (app plain_packages plain_lib 8 [str "https://shop.example"])
             OriginGuard
             (incoming "GET" "/clientApis/v1/on_search"
                (Some "https://shop.example"%string) [] VUndefined) _) as Hreach.
  { eexists. vm_compute. reflexivity. }
  eexists. split; [exact Hreach|].
  exact (proj2 (origin_guard_never_blocks plain_packages plain_lib 8 _ _ _
                  eq_refl Hreach)).
Defined.

(** ** What runs before what *)

(** Every stage that ran before a stage is registered before it. *)
Lemma dispatch_runs_before layers err x t1 s v t2 :
  NoDup (layer_stage <$> layers) ->
  (dispatch layers err x).1 = t1 ++ (s, v) :: t2 ->
  forall s', s' ∈ stages_of t1 -> s' ∈ layer_stage <$> upstream s layers.
Proof.
  revert err x t1. induction layers as [|ly rest IH]; intros err x t1 Hnd Ht s' Hs'.
  { simpl in Ht. by destruct t1. }
  apply NoDup_cons in Hnd as [Hly Hnd].
  assert (forall err' x' t, (dispatch rest err' x').1 = t -> s ∈ stages_of t ->
            layer_stage ly <> s) as Hne.
  { intros err' x' t <- Hin Heq. apply Hly. rewrite Heq.
    eapply elem_of_sublist; [exact Hin|apply dispatch_in_order]. }
  assert (s ∈ stages_of (t1 ++ (s, v) :: t2)) as Hs.
  { unfold stages_of. rewrite fmap_app, fmap_cons, elem_of_app, elem_of_cons. auto. }
  simpl in Ht |- *.
  destruct (layer_step ly err x) as [[x'|e x'|x']|].
  - destruct (dispatch rest None x') as [t p] eqn:E. simpl in Ht.
    destruct t1 as [|ev t1]; simpl in *.
    + by apply not_elem_of_nil in Hs'.
    + injection Ht as Hev Ht. subst ev. simpl in Hs'.
      rewrite bool_decide_eq_false_2; [|apply (Hne None x' t); [by rewrite E|]].
      * apply elem_of_cons in Hs' as [->|Hs']; [by left|].
        right. eapply (IH None x' t1); [done|by rewrite E|done].
      * rewrite Ht. unfold stages_of.
        rewrite fmap_app, fmap_cons, elem_of_app, elem_of_cons. auto.
  - destruct (dispatch rest (Some e) x') as [t p] eqn:E. simpl in Ht.
    destruct t1 as [|ev t1]; simpl in *.
    + by apply not_elem_of_nil in Hs'.
    + injection Ht as Hev Ht. subst ev. simpl in Hs'.
      rewrite bool_decide_eq_false_2; [|apply (Hne (Some e) x' t); [by rewrite E|]].
      * apply elem_of_cons in Hs' as [->|Hs']; [by left|].
        right. eapply (IH (Some e) x' t1); [done|by rewrite E|done].
      * rewrite Ht. unfold stages_of.
        rewrite fmap_app, fmap_cons, elem_of_app, elem_of_cons. auto.
  - simpl in Ht. destruct t1 as [|ev [|ev' t1]]; simpl in *; try done.
    by apply not_elem_of_nil in Hs'.
  - rewrite bool_decide_eq_false_2 by (by apply (Hne err x _ Ht)).
    right. by eapply IH.
Qed.

Lemma router_answers_after pkg lib depth W x s :
  (Router, Ended) ∈ (dispatch (app pkg lib depth W) None x).1 ->
  s ∈ stages_of (dispatch (app pkg lib depth W) None x).1 ->
  s ∈ [CookieParser; BodyParserJson; BodyParserUrlencoded; Logger;
       CorsCompulsory; CorsEnhanced; CorsHeaders; OriginGuard;
       VersionValidator; Router].
Proof.
  intros (t1 & t2 & Ht)%list_elem_of_split Hs.
  destruct (dispatch_end_is_final _ _ _ _ _ _ Ht) as [-> _].
  rewrite Ht in Hs. unfold stages_of in Hs.
  rewrite fmap_app, elem_of_app in Hs. destruct Hs as [Hs|Hs].
  - pose proof (dispatch_runs_before (app pkg lib depth W) None x t1 Router Ended []
                  ltac:(by apply (bool_decide_eq_true_1 _)) Ht s Hs) as Hup.
    change (layer_stage <$> upstream Router (app pkg lib depth W))
      with [CookieParser; BodyParserJson; BodyParserUrlencoded; Logger;
            CorsCompulsory; CorsEnhanced; CorsHeaders; OriginGuard;
            VersionValidator] in Hup.
    repeat (apply elem_of_cons in Hup as [->|Hup];
            [by apply (bool_decide_eq_true_1 _)|]).
    by apply not_elem_of_nil in Hup.
  - apply list_elem_of_singleton in Hs as ->. by apply (bool_decide_eq_true_1 _).
Qed.

(** X4. A request the router answers has been through none of the stages
    the file registers after the router: not the XSS filter, not the body
    sanitizer, not the Mongo sanitizer.  The handlers behind [/clientApis]
    receive the body as the stages before the router left it. *)
Theorem router_answers_unsanitized pkg lib depth W x :
  (Router, Ended) ∈ (dispatch (app pkg lib depth W) None x).1 ->
  (XssFilter ∉ stages_of (dispatch (app pkg lib depth W) None x).1)
  /\ (SanitizeBody ∉ stages_of (dispatch (app pkg lib depth W) None x).1)
  /\ (MongoSanitize ∉ stages_of (dispatch (app pkg lib depth W) None x).1).
Proof.
  intros Hr. repeat split; intros Hs;
    apply (router_answers_after _ _ _ _ _ _ Hr) in Hs;
    by apply (bool_decide_eq_true_2 _) in Hs.
Qed.

Lemma router_answers_unsanitized_witness :
  SanitizeBody ∉
    stages_of (dispatch (app plain_packages plain_lib 8 [str "https://shop.example"])
                 None
                 (incoming "POST" "/clientApis/v1/search" None
                    [OPlain [(str "q", VStr (str " <b>x</b> "))] []] (VRef 0))).1.
Proof.
  refine (proj1 (proj2
    (router_answers_unsanitized plain_packages plain_lib 8 [str "https://shop.example"]
       (incoming "POST" "/clientApis/v1/search" None
          [OPlain [(str "q", VStr (str " <b>x</b> "))] []] (VRef 0)) _))).
  apply (bool_decide_eq_true_1 _). vm_compute. reflexivity.
Defined.

(** ** The fallback route *)


(** ** The whitelist variable *)

Lemma js_split_whole sep p : sep ∉ p -> js_split sep p = [p].
Proof.
  induction p as [|c r IH]; [done|]. intros Hp. simpl.
  rewrite not_elem_of_cons in Hp. destruct Hp as [Hc Hr].
  destruct (c =? sep)%N eqn:E; [by apply N.eqb_eq in E|].
  by rewrite (IH Hr).
Qed.

Lemma js_split_piece sep p r :
  sep ∉ p -> js_split sep (p ++ sep :: r) = p :: js_split sep r.
Proof.
  induction p as [|c p IH]; intros Hp; simpl.
  - by rewrite N.eqb_refl.
  - rewrite not_elem_of_cons in Hp. destruct Hp as [Hc Hp].
    destruct (c =? sep)%N eqn:E; [by apply N.eqb_eq in E|].
    by rewrite (IH Hp).
Qed.

Lemma js_split_join sep W :
  W <> [] -> Forall (fun e => sep ∉ e) W -> js_split sep (js_join sep W) = W.
Proof.
  intros Hne Hall. induction Hall as [|e W He Hall IH]; [done|].
  destruct W as [|e' W]; simpl.
  - by apply js_split_whole.
  - rewrite js_split_piece by done. f_equal. by apply IH.
Qed.

Lemma trim_start_trimmed s :
  (forall c, head s = Some c -> js_whitespace c = false) -> trim_start s = s.
Proof. destruct s as [|c r]; [done|]. intros H. simpl. by rewrite (H c). Qed.

Lemma js_trim_trimmed s : trimmed s -> js_trim s = s.
Proof.
  intros [Hhead Hlast]. unfold js_trim, trim_end.
  rewrite (trim_start_trimmed s Hhead), trim_start_trimmed.
  - apply reverse_involutive.
  - intros c. rewrite head_reverse. apply Hlast.
Qed.

(** X6. Writing a list of origins into the whitelist variable, joined by
    commas, gives back that list as the whitelist, entry for entry, as long
    as no origin holds a comma or starts or ends with whitespace and the
    joined string is not empty. *)
Theorem whitelist_round_trip W env db :
  W <> [] ->
  Forall (fun e => (44%N ∉ e) /\ trimmed e) W ->
  js_join 44%N W <> [] ->
  CORS_WHITELIST_URLS env = Some (js_join 44%N W) ->
  boot_whitelist (startup env db) = Some W.
Proof.
  intros Hne Hall Hjoin Henv. unfold startup. rewrite Henv. simpl.
  apply truthy_str_nonempty in Hjoin. rewrite Hjoin. simpl. f_equal.
  unfold parse_whitelist. rewrite js_split_join; [|done|].
  - clear Hne Hjoin Henv. induction Hall as [|e W [_ He] _ IH]; [done|].
    rewrite fmap_cons, IH. by rewrite js_trim_trimmed.
  - eapply Forall_impl; [exact Hall|]. by intros e [? _].
Qed.

Lemma whitelist_round_trip_witness :
  boot_whitelist
    (startup (Environment (Some (str "https://shop.example,https://m.shop.example")) None)
             true)
  = Some [str "https://shop.example"; str "https://m.shop.example"].
Proof.
  apply (whitelist_round_trip [str "https://shop.example"; str "https://m.shop.example"]).
  - discriminate.
  - repeat constructor; try (apply (bool_decide_eq_false_1 _); vm_compute; reflexivity);
      intros c [= <-]; reflexivity.
  - discriminate.
  - reflexivity.
Defined.

Lemma parse_whitelist_no_comma urls entry :
  entry ∈ parse_whitelist urls -> 44%N ∉ entry.
Proof.
  unfold parse_whitelist. intros (piece & -> & Hin)%list_elem_of_fmap Hc.
  apply (js_split_no_separator _ _ _ Hin).
  destruct (js_trim_spec piece) as (a & b & E & _). rewrite E, !elem_of_app. auto.
Qed.

(** X7. An origin that holds a comma, or that starts or ends with
    whitespace, is blocked whatever the whitelist variable is set to: no
    entry of a parsed whitelist has a comma or such whitespace. *)
Theorem unlistable_origin_blocked urls o :
  o <> [] ->
  44%N ∈ o \/ ~ trimmed o ->
  decide_origin (Some o) (parse_whitelist urls) = Blocked
  /\ origin_blocked (parse_whitelist urls) (Some o) = true.
Proof.
  intros Ho%truthy_str_nonempty Hbad.
  assert (includes (parse_whitelist urls) o = false) as Hout.
  { destruct (includes _ o) eqn:E; [|done]. apply includes_elem in E.
    destruct Hbad as [Hc|Ht].
    - by apply parse_whitelist_no_comma in E.
    - by apply parse_whitelist_trimmed in E. }
  unfold decide_origin, corsOptions_origin, origin_blocked. simpl.
  by rewrite Ho, Hout.
Qed.

Lemma unlistable_origin_blocked_witness :
  decide_origin (Some (str "https://shop.example "))
                (parse_whitelist (str "https://shop.example , https://b.example"))
  = Blocked.
Proof.
  refine (proj1 (unlistable_origin_blocked
                   (str "https://shop.example , https://b.example")
                   (str "https://shop.example ") _ _)).
  - discriminate.
  - right. intros [_ H]. by specialize (H 32%N eq_refl).
Defined.

(** ** Listening *)

(** X8. The process listens on a port only when the whitelist variable
    was set to a string that is not empty and the database connection
    succeeded; the whitelist then has at least one entry, and the port is
    the [PORT] variable, or 8080 when that variable is unset or empty. *)
Theorem listening_implies_configured env db p :
  boot_listening (startup env db) = Some p ->
  db = true
  /\ (exists urls, CORS_WHITELIST_URLS env = Some urls /\ urls <> []
        /\ boot_whitelist (startup env db) = Some (parse_whitelist urls)
        /\ parse_whitelist urls <> [])
  /\ match PORT env with
     | Some (c :: r) => p = inl (c :: r)
     | _ => p = inr 8080%N
     end.
Proof.
  unfold startup, port_of.
  destruct (CORS_WHITELIST_URLS env) as [[|c r]|]; simpl; try done.
  destruct db; [|done]. intros [= <-]. split; [done|]. split.
  - exists (c :: r). repeat split; try done.
    unfold parse_whitelist. intros H%fmap_nil_inv. by apply js_split_nonempty in H.
  - by destruct (PORT env) as [[|c' r']|].
Qed.

Lemma listening_implies_configured_witness :
  exists urls,
    CORS_WHITELIST_URLS (Environment (Some (str "https://shop.example")) (Some []))
    = Some urls
    /\ urls <> [] /\ parse_whitelist urls <> [].
Proof.
  destruct (listening_implies_configured
              (Environment (Some (str "https://shop.example")) (Some [])) true
              (inr 8080%N)) as (_ & (urls & H1 & H2 & _ & H3) & _).
  - reflexivity.
  - exists urls. auto.
Defined.
(** ** The sanitizer and the call stack *)

Lemma array_map_more f g h vs r :
  (forall h v r, f h v = Ok r -> g h v = Ok r) ->
  array_map f h vs = Ok r -> array_map g h vs = Ok r.
Proof.
  intros Hfg. revert h r. induction vs as [|v vs IH]; intros h r; simpl; [done|].
  destruct (f h v) as [[h1 v']|] eqn:E; [|done]. rewrite (Hfg _ _ _ E). simpl.
  destruct (array_map f h1 vs) as [[h2 r']|] eqn:E'; [|done].
  by rewrite (IH _ _ E').
Qed.

Lemma for_in_more f g l h keys r :
  (forall h v r, f h v = Ok r -> g h v = Ok r) ->
  for_in f l h keys = Ok r -> for_in g l h keys = Ok r.
Proof.
  intros Hfg. revert h. induction keys as [|key keys IH]; intros h; [done|].
  rewrite !for_in_cons.
  destruct (h !! l) as [[|own inh]|]; try done.
  destruct (has_own _ own); [done|].
  destruct (has_own key own); [|apply IH].
  destruct (get_own key own) as [v|]; [|apply IH].
  destruct (f h v) as [[h1 v']|] eqn:E; [|done]. rewrite (Hfg _ _ _ E). simpl.
  destruct (h1 !! l) as [[|own1 inh1]|]; try done. apply IH.
Qed.

(** X9. What [sanitize] returns does not depend on the room left on the
    call stack: a call that returns with room for [depth] nested calls
    returns the same value and the same store with any more room. *)
Theorem sanitize_more_stack lib depth depth' h v r :
  depth <= depth' ->
  sanitize lib depth h v = Ok r ->
  sanitize lib depth' h v = Ok r.
Proof.
  revert depth' h v r. induction depth as [|d IH]; intros depth' h v r Hle; [done|].
  destruct depth' as [|d']; [lia|].
  assert (forall h v r, sanitize lib d h v = Ok r -> sanitize lib d' h v = Ok r) as Hd.
  { intros. apply (IH d'); [lia|done]. }
  destruct v as [| | | | |l]; simpl; try done.
  destruct (h !! l) as [[vs|own inh]|]; try done.
  - destruct (array_map (sanitize lib d) h vs) as [[h1 vs']|] eqn:E; [|done].
    by rewrite (array_map_more _ _ _ _ _ Hd E).
  - destruct (for_in (sanitize lib d) l h (own.*1 ++ inh)) as [h1|] eqn:E; [|done].
    by rewrite (for_in_more _ _ _ _ _ _ Hd E).
Qed.

Lemma sanitize_more_stack_witness :
  exists r,
    sanitize plain_lib 3 example_store (VRef 0) = Ok r
    /\ sanitize plain_lib 9 example_store (VRef 0) = Ok r.
Proof.
  eexists. split; [vm_compute; reflexivity|].
  apply (sanitize_more_stack plain_lib 3 9); [lia|vm_compute; reflexivity].
Defined.

(** ** The sanitizer on a hidden method *)

Lemma distinct_keys_elems ss :
  distinct_keys (SArr ss) = true -> Forall (fun s => distinct_keys s = true) ss.
Proof. simpl. rewrite forallb_forall, Forall_forall. intros H s Hs. by apply H, list_elem_of_In. Qed.

Lemma distinct_keys_props kss inh :
  distinct_keys (SObj kss inh) = true ->
  NoDup kss.*1 /\ Forall (fun ks => distinct_keys ks.2 = true) kss.
Proof.
  simpl. intros [Hnd Hall]%andb_prop. apply bool_decide_eq_true in Hnd.
  apply NoDup_app in Hnd as [Hnd _]. split; [done|].
  rewrite forallb_forall in Hall. apply Forall_forall.
  intros ks Hks. by apply Hall, list_elem_of_In.
Qed.

Lemma distinct_key_shape (kss : list (jsstring * shape)) k s s' :
  NoDup kss.*1 -> (k, s) ∈ kss -> (k, s') ∈ kss -> s = s'.
Proof.
  induction kss as [|[k0 s0] kss IH]; simpl; intros Hnd Hs Hs'.
  { by apply not_elem_of_nil in Hs. }
  apply NoDup_cons in Hnd as [Hk0 Hnd].
  assert (forall s1, (k, s1) ∈ kss -> k ∈ kss.*1) as Hin.
  { intros s1 H1. apply list_elem_of_fmap. by exists (k, s1). }
  apply elem_of_cons in Hs as [Hs|Hs]; apply elem_of_cons in Hs' as [Hs'|Hs'].
  - congruence.
  - injection Hs as -> ->. by apply Hin in Hs'.
  - injection Hs' as -> ->. by apply Hin in Hs.
  - by apply IH.
Qed.

Lemma array_map_throws f n :
  sanitizes f n -> throws_on_hidden_method f n ->
  forall vs ss h,
    Forall (fun s => height s < n) ss ->
    Forall (fun s => distinct_keys s = true) ss ->
    forallb method_visible ss = false ->
    all2 (has_shape h) ss vs = true ->
    exists h', array_map f h vs = Throw h' (TypeError not_a_function).
Proof.
  intros Hok Hthrow. induction vs as [|v vs IH]; intros [|s ss] h Hh Hd Hm Hs;
    simpl in *; try done.
  apply andb_prop in Hs as [Hv Hvs].
  apply Forall_cons in Hh as [Hh Hhs]. apply Forall_cons in Hd as [Hd Hds].
  destruct (method_visible s) eqn:Hms; simpl in Hm.
  - destruct (Hok h v s Hh Hms Hv) as (h1 & v' & -> & _ & Hk1 & _). simpl.
    destruct (IH ss h1 Hhs Hds Hm) as (h' & ->).
    { eapply all2_mono; [|exact Hvs]. apply Hk1. }
    by exists h'.
  - destruct (Hthrow h v s Hh Hd Hms Hv) as (h' & ->). by exists h'.
Qed.

Lemma for_in_throws f n l kss inh :
  sanitizes f n -> throws_on_hidden_method f n ->
  Forall (fun ks => height ks.2 < n) kss ->
  Forall (fun ks => distinct_keys ks.2 = true) kss ->
  NoDup kss.*1 ->
  forall keys h k s,
    (k, s) ∈ kss -> method_visible s = false -> k ∈ keys ->
    has_shape h (SObj kss inh) (VRef l) = true ->
    exists h', for_in f l h keys = Throw h' (TypeError not_a_function).
Proof.
  intros Hok Hthrow Hh Hd Hnd. induction keys as [|key r IH]; intros h k s Hks Hms Hk Hs.
  { by apply not_elem_of_nil in Hk. }
  pose proof Hs as Hobj. simpl in Hobj. rewrite for_in_cons.
  destruct (h !! l) as [[vs|own inh']|] eqn:Hl; try done.
  apply andb_prop in Hobj as [->%bool_decide_eq_true Hown].
  destruct (has_own (str "hasOwnProperty") own); [by eexists|].
  assert (key <> k -> k ∈ r) as Hrest.
  { intros Hne. apply elem_of_cons in Hk as [->|Hk]; done. }
  destruct (has_own key own) eqn:Hkey.
  2: { apply (IH h k s); try done. apply Hrest. intros ->.
       assert (has_own k own = true); [|congruence].
       apply has_own_elem. rewrite <- (prop_shaped_keys _ _ _ Hown).
       apply list_elem_of_fmap. by exists (k, s). }
  destruct (get_own key own) as [v|] eqn:Hv.
  2: { apply has_own_elem in Hkey. unfold has_own in *.
       assert (is_Some (get_own key own)) as [? ?]; [|congruence].
       clear -Hkey. induction own as [|[k0 v0] own IH]; simpl.
       - by apply not_elem_of_nil in Hkey.
       - case_bool_decide; [by eexists|]. apply IH.
         apply elem_of_cons in Hkey as [?|?]; [by subst|done]. }
  destruct (prop_shaped_get _ _ kss own own key v v Hown Hown Hv Hv) as (s0 & Hin & Hsv & _).
  assert (height s0 < n) as Hhs.
  { rewrite Forall_forall in Hh. apply (Hh (key, s0) Hin). }
  assert (distinct_keys s0 = true) as Hds.
  { rewrite Forall_forall in Hd. apply (Hd (key, s0) Hin). }
  destruct (method_visible s0) eqn:Hm0.
  - destruct (Hok h v s0 Hhs Hm0 Hsv) as (h1 & v' & -> & Hv' & Hk1 & _). simpl.
    pose proof (proj2 Hk1 _ _ Hs) as Hobj1. simpl in Hobj1.
    destruct (h1 !! l) as [[vs|own1 inh1]|] eqn:Hl1; try done.
    apply andb_prop in Hobj1 as [->%bool_decide_eq_true Hown1].
    assert (keeps_shapes h1 (<[l := OPlain (set_own key v' own1) inh1]> h1)) as Hk2.
    { apply has_shape_update; [done|]. intros old sk Hold Hsk.
      destruct (prop_shaped_get _ _ kss own own1 key v old Hown Hown1 Hv Hold)
        as (s' & _ & Hs'v & Hs'old).
      rewrite (has_shape_unique h1 sk s' old Hsk Hs'old).
      by rewrite (has_shape_unique h s' s0 v Hs'v Hsv). }
    apply (IH _ k s); try done.
    + apply Hrest. intros ->.
      rewrite (distinct_key_shape kss k s s0 Hnd Hks Hin) in Hms. congruence.
    + apply Hk2, Hk1, Hs.
  - destruct (Hthrow h v s0 Hhs Hds Hm0 Hsv) as (h' & ->). by exists h'.
Qed.

Lemma sanitize_throws lib n : throws_on_hidden_method (sanitize lib n) n.
Proof.
  induction n as [|n IH]; intros h v s Hh Hd Hm Hs; [lia|].
  destruct s as [| |b|m| |ss|kss inh], v as [| |b'|m'|t|l]; try done.
  - simpl in Hs |- *.
    destruct (h !! l) as [[vs|own inh']|] eqn:Hl; try done.
    destruct (array_map_throws _ n (sanitize_sanitizes lib n) IH vs ss h) as (h' & ->);
      try done; [by apply height_elems|by apply distinct_keys_elems|].
    by exists h'.
  - pose proof Hs as Hobj. simpl in Hobj.
    cbn [sanitize].
    destruct (h !! l) as [[vs|own inh']|] eqn:Hl; try done.
    apply andb_prop in Hobj as [->%bool_decide_eq_true Hown].
    destruct (distinct_keys_props _ _ Hd) as [Hnd Hds].
    change (negb (bool_decide (str "hasOwnProperty" ∈ kss.*1))
            && forallb (fun ks => method_visible ks.2) kss = false) in Hm.
    destruct (bool_decide (str "hasOwnProperty" ∈ kss.*1)) eqn:Hhop.
    + apply bool_decide_eq_true in Hhop.
      rewrite (prop_shaped_keys _ _ _ Hown) in Hhop.
      destruct own as [|[k0 v0] own]; [by apply not_elem_of_nil in Hhop|].
      rewrite fmap_cons. change (((k0, v0).1 :: own.*1) ++ inh')
        with (k0 :: (own.*1 ++ inh')).
      rewrite for_in_cons, Hl.
      apply has_own_elem in Hhop. rewrite Hhop. by eexists.
    + simpl in Hm.
      assert (exists ks, ks ∈ kss /\ method_visible ks.2 = false) as ([k s] & Hks & Hms).
      { clear -Hm. induction kss as [|ks kss IH]; [done|]. simpl in Hm.
        destruct (method_visible ks.2) eqn:E.
        - destruct (IH Hm) as (ks' & ? & ?). exists ks'. split; [by right|done].
        - exists ks. split; [by left|done]. }
      destruct (for_in_throws _ n l kss inh' (sanitize_sanitizes lib n) IH
                  (height_props _ _ _ Hh) Hds Hnd (own.*1 ++ inh') h k s Hks Hms)
        as (h' & ->); [|done|by exists h'].
      rewrite elem_of_app. left. rewrite <- (prop_shaped_keys _ _ _ Hown).
      apply list_elem_of_fmap. by exists (k, s).
Qed.

(** X10. On a value that holds, at any depth, an object with an own
    property called [hasOwnProperty], [sanitize] throws a [TypeError],
    given room for the nested calls: the call [input.hasOwnProperty(key)]
    finds the property in place of the method. *)
Theorem sanitize_throws_on_hidden_method lib depth h v s :
  has_shape h s v = true ->
  distinct_keys s = true ->
  method_visible s = false ->
  height s < depth ->
  exists h', sanitize lib depth h v = Throw h' (TypeError not_a_function).
Proof. intros Hs Hd Hm Hh. by apply (sanitize_throws lib depth h v s). Qed.

Lemma sanitize_throws_on_hidden_method_witness :
  exists h',
    sanitize plain_lib 4
      [OArray [VStr (str " a "); VRef 1];
       OPlain [(str "name", VStr (str "x")); (str "hasOwnProperty", VNull)] []]
      (VRef 0)
    = Throw h' (TypeError not_a_function).
Proof.
  apply (sanitize_throws_on_hidden_method plain_lib 4 _ _
           (SArr [SStr; SObj [(str "name", SStr); (str "hasOwnProperty", SNull)] []])).
  - vm_compute. reflexivity.
  - vm_compute. reflexivity.
  - vm_compute. reflexivity.
  - simpl. lia.
Defined.
(** ** The sanitizing middleware in the application *)

(** X11. The sanitizing middleware, for a request that comes to it: when
    [sanitize] returns, the Mongo sanitizer receives the request with the
    new body and the new store, and the method, the path, the origin, the
    response and the console as they were; when [sanitize] throws, the
    middleware fails with that exception and the Mongo sanitizer does not
    run. *)
Theorem sanitize_stage pkg lib depth W x x1 :
  reaches (app pkg lib depth W) SanitizeBody x x1 ->
  match sanitize lib depth (ex_heap x1) (req_body (ex_req x1)) with
  | Ok (h, body) =>
      reaches (app pkg lib depth W) MongoSanitize x (with_body h body x1)
      /\ req_method (ex_req (with_body h body x1)) = req_method (ex_req x1)
      /\ req_path (ex_req (with_body h body x1)) = req_path (ex_req x1)
      /\ req_origin (ex_req (with_body h body x1)) = req_origin (ex_req x1)
      /\ ex_res (with_body h body x1) = ex_res x1
      /\ ex_log (with_body h body x1) = ex_log x1
  | Throw h e =>
      exists t t',
        (dispatch (app pkg lib depth W) None x).1 = t ++ (SanitizeBody, Failed) :: t'
        /\ (MongoSanitize ∉ stages_of (dispatch (app pkg lib depth W) None x).1)
  end.
Proof.
  intros [t Hup].
  pose proof (dispatch_in_order (upstream SanitizeBody (app pkg lib depth W)) None x) as Hord.
  rewrite Hup in Hord.
  destruct (sanitize lib depth (ex_heap x1) (req_body (ex_req x1))) as [[h body]|h e] eqn:E.
  - split; [|done]. exists (t ++ [(SanitizeBody, Passed)]).
    change (upstream MongoSanitize (app pkg lib depth W))
      with (upstream SanitizeBody (app pkg lib depth W)
            ++ [Layer SanitizeBody every_request (Middleware (sanitize_body lib depth))]).
    rewrite dispatch_app, Hup.
    cbn [dispatch layer_step layer_match layer_fn every_request layer_stage].
    unfold sanitize_body. by rewrite E.
  - change (app pkg lib depth W)
      with (upstream SanitizeBody (app pkg lib depth W)
            ++ Layer SanitizeBody every_request (Middleware (sanitize_body lib depth))
               :: Layer MongoSanitize every_request (Middleware (mongoSanitize pkg))
               :: drop 13 (app pkg lib depth W)).
    rewrite dispatch_app, Hup.
    cbn [dispatch layer_step layer_match layer_fn every_request layer_stage].
    unfold sanitize_body. rewrite E.
    pose proof (dispatch_in_order (drop 13 (app pkg lib depth W)) (Some e) (with_heap h x1))
      as Hord'.
    destruct (dispatch (drop 13 (app pkg lib depth W)) (Some e) (with_heap h x1))
      as [t' p] eqn:E'.
    exists t, t'. split; [done|]. cbn [fst]. unfold stages_of in *.
    rewrite fmap_app, fmap_cons, elem_of_app, elem_of_cons.
    intros [Hin|[Hin|Hin]]; [|done|].
    + pose proof (elem_of_sublist _ _ _ Hin Hord) as Hin'.
      change (upstream SanitizeBody (app pkg lib depth W))
        with (take 11 (app pkg lib depth W)) in Hin'.
      by apply (bool_decide_eq_true_2 _) in Hin'.
    + pose proof (elem_of_sublist _ _ _ Hin Hord') as Hin'.
      by apply (bool_decide_eq_true_2 _) in Hin'.
Qed.

Lemma sanitize_stage_witness :
  exists t t',
    (dispatch (app plain_packages plain_lib 8 []) None
       (incoming "POST" "/other" None
          [OPlain [(str "hasOwnProperty", VBool true)] []] (VRef 0))).1
    = t ++ (SanitizeBody, Failed) :: t'.
Proof.
  eassert (reaches (app plain_packages plain_lib 8 []) SanitizeBody
             (incoming "POST" "/other" None
                [OPlain [(str "hasOwnProperty", VBool true)] []] (VRef 0)) _) as Hreach.
  { eexists. vm_compute. reflexivity. }
  pose proof (sanitize_stage _ _ _ _ _ _ Hreach) as H.
  cbn [ex_heap ex_req req_body] in H.
  change (sanitize plain_lib 8 [OPlain [(str "hasOwnProperty", VBool true)] []] (VRef 0))
    with (@Throw (heap * value) [OPlain [(str "hasOwnProperty", VBool true)] []]
            (TypeError not_a_function)) in H.
  destruct H as (t & t' & H1 & _). exists t, t'. exact H1.
Defined.
(** ** The content of a sanitized value *)

Lemma tree_induction (P : tree -> Prop) :
  P TUndefined -> P TNull -> (forall b, P (TBool b)) -> (forall n, P (TNum n)) ->
  (forall s, P (TStr s)) ->
  (forall ts, Forall P ts -> P (TArr ts)) ->
  (forall kts inh, Forall P kts.*2 -> P (TObj kts inh)) ->
  forall t, P t.
Proof.
  intros HU HN HB HD HS HA HO. fix IH 1. intros [| |b|n|s|ts|kts inh].
  - exact HU.
  - exact HN.
  - apply HB.
  - apply HD.
  - apply HS.
  - apply HA. induction ts as [|t ts IHts]; constructor; [apply IH|exact IHts].
  - apply HO. induction kts as [|[k t] kts IHkts]; constructor; [apply IH|exact IHkts].
Qed.

Lemma prop_denoted_split f kts own :
  all2 (prop_denoted f) kts own = true
  <-> kts.*1 = own.*1 /\ all2 f kts.*2 own.*2 = true.
Proof.
  revert own. induction kts as [|[k t] kts IH]; intros [|[k' v] own]; try done.
  - by split; [|intros [? ?]].
  - by split; [|intros [? ?]].
  - change (all2 (prop_denoted f) ((k, t) :: kts) ((k', v) :: own))
      with (prop_denoted f (k, t) (k', v) && all2 (prop_denoted f) kts own).
    rewrite !fmap_cons. cbn [fst snd].
    change (all2 f (t :: kts.*2) (v :: own.*2)) with (f t v && all2 f kts.*2 own.*2).
    unfold prop_denoted. cbn [fst snd].
    rewrite !andb_true_iff, IH, bool_decide_eq_true.
    split.
    + intros [[-> ?] [-> ?]]. done.
    + intros [[= -> ->] [? ?]]. done.
Qed.

Lemma prop_footprints h (kts : list (jsstring * tree)) (own : list (jsstring * value)) :
  concat (zip_with (fun kt kv => footprint h kt.2 kv.2) kts own)
  = footprints h kts.*2 own.*2.
Proof.
  unfold footprints. f_equal.
  by rewrite zip_with_fmap_l, zip_with_fmap_r.
Qed.

Lemma denotes_object h kts inh l :
  denotes h (TObj kts inh) (VRef l) = true
  <-> exists own, h !! l = Some (OPlain own inh)
        /\ kts.*1 = own.*1 /\ all2 (denotes h) kts.*2 own.*2 = true.
Proof.
  simpl. destruct (h !! l) as [[vs|own inh']|]; try (split; [done|by intros (? & ? & ?)]).
  rewrite andb_true_iff, bool_decide_eq_true, prop_denoted_split. split.
  - intros [-> ?]. by exists own.
  - intros (own' & [= -> ->] & ?). done.
Qed.

Lemma footprint_object h kts inh l own inh' :
  h !! l = Some (OPlain own inh') ->
  footprint h (TObj kts inh) (VRef l) = l :: footprints h kts.*2 own.*2.
Proof. intros Hl. simpl. by rewrite Hl, prop_footprints. Qed.

Lemma footprint_array h ts l vs :
  h !! l = Some (OArray vs) ->
  footprint h (TArr ts) (VRef l) = l :: footprints h ts vs.
Proof. intros Hl. simpl. by rewrite Hl. Qed.

Lemma footprints_Forall h (P : loc -> Prop) ts vs :
  Forall (fun t => forall v l, l ∈ footprint h t v -> P l) ts ->
  forall l, l ∈ footprints h ts vs -> P l.
Proof.
  unfold footprints. intros Hall. revert vs.
  induction Hall as [|t ts Ht _ IH]; intros [|v vs] l; simpl;
    try (by intros ?%not_elem_of_nil).
  rewrite elem_of_app. intros [Hl|Hl]; [by eapply Ht|by eapply IH].
Qed.

(** The locations of a value are locations of the store. *)
Lemma footprint_lt h t v l : l ∈ footprint h t v -> l < length h.
Proof.
  revert v l. induction t as [| | | | |ts IH|kts inh IH] using tree_induction;
    intros [| | | | |l0] l; simpl; try (by intros ?%not_elem_of_nil).
  - destruct (h !! l0) as [[vs|own inh']|] eqn:E; try (by intros ?%not_elem_of_nil).
    intros [->|Hl]%elem_of_cons; [by eapply lookup_lt_Some|].
    exact (footprints_Forall h (fun l => l < length h) ts vs IH l Hl).
  - destruct (h !! l0) as [[vs|own inh']|] eqn:E; try (by intros ?%not_elem_of_nil).
    rewrite prop_footprints.
    intros [->|Hl]%elem_of_cons; [by eapply lookup_lt_Some|].
    exact (footprints_Forall h (fun l => l < length h) kts.*2 own.*2 IH l Hl).
Qed.

Lemma footprints_lt h ts vs l : l ∈ footprints h ts vs -> l < length h.
Proof.
  apply (footprints_Forall h (fun l => l < length h)), Forall_forall.
  intros t _ v l'. apply footprint_lt.
Qed.

Lemma frame_elems h h1 ts :
  Forall (fun t => forall v,
            (forall l, l ∈ footprint h t v -> h1 !! l = h !! l) ->
            denotes h t v = true ->
            denotes h1 t v = true /\ footprint h1 t v = footprint h t v) ts ->
  forall vs,
    (forall l, l ∈ footprints h ts vs -> h1 !! l = h !! l) ->
    all2 (denotes h) ts vs = true ->
    all2 (denotes h1) ts vs = true /\ footprints h1 ts vs = footprints h ts vs.
Proof.
  unfold footprints. intros Hall.
  induction Hall as [|t ts Ht _ IH]; intros [|v vs] Hfr; simpl; try done.
  intros [Hv Hvs]%andb_prop. simpl in Hfr.
  destruct (Ht v) as [-> ->]; [|done|].
  { intros l Hl. apply Hfr. rewrite elem_of_app. auto. }
  destruct (IH vs) as [-> ->]; [|done|done].
  intros l Hl. apply Hfr. rewrite elem_of_app. auto.
Qed.

(** A value denotes the same content, on the same locations, in any store
    that agrees with the first on those locations. *)
Lemma denotes_frame h h1 t v :
  (forall l, l ∈ footprint h t v -> h1 !! l = h !! l) ->
  denotes h t v = true ->
  denotes h1 t v = true /\ footprint h1 t v = footprint h t v.
Proof.
  revert v. induction t as [| | | | |ts IH|kts inh IH] using tree_induction;
    intros [| | | | |l0]; try done.
  - intros Hfr Hd. pose proof Hd as Hd'. simpl in Hd'.
    destruct (h !! l0) as [[vs|own inh']|] eqn:E; try done.
    rewrite (footprint_array _ _ _ _ E) in Hfr.
    assert (h1 !! l0 = Some (OArray vs)) as E1.
    { rewrite Hfr; [done|by left]. }
    rewrite (footprint_array _ _ _ _ E), (footprint_array _ _ _ _ E1).
    simpl. rewrite E1.
    destruct (frame_elems h h1 ts IH vs) as [-> ->]; try done.
    intros l Hl. apply Hfr. by right.
  - intros Hfr [own (E & Hk & Hvs)]%denotes_object.
    rewrite (footprint_object _ _ _ _ _ _ E) in Hfr.
    assert (h1 !! l0 = Some (OPlain own inh)) as E1.
    { rewrite Hfr; [done|by left]. }
    rewrite (footprint_object _ _ _ _ _ _ E), (footprint_object _ _ _ _ _ _ E1).
    destruct (frame_elems h h1 kts.*2 IH own.*2) as [Hd ->]; try done.
    { intros l Hl. apply Hfr. by right. }
    split; [|done]. apply denotes_object. by exists own.
Qed.

Lemma elems_frame h h1 ts vs :
  (forall l, l ∈ footprints h ts vs -> h1 !! l = h !! l) ->
  all2 (denotes h) ts vs = true ->
  all2 (denotes h1) ts vs = true /\ footprints h1 ts vs = footprints h ts vs.
Proof.
  apply frame_elems, Forall_forall. intros t _ v. apply denotes_frame.
Qed.

Lemma shape_of_sanitized lib t : shape_of (sanitized lib t) = shape_of t.
Proof.
  induction t as [| | | | |ts IH|kts inh IH] using tree_induction; simpl; try done.
  - f_equal. rewrite <- list_fmap_compose. by apply Forall_fmap_ext_1.
  - f_equal. rewrite <- list_fmap_compose. apply Forall_fmap_ext_1.
    rewrite Forall_fmap in IH. eapply Forall_impl; [exact IH|].
    intros [k t] H. simpl in *. by rewrite H.
Qed.
Lemma forallb_Forall {A} (f : A -> bool) l :
  forallb f l = true <-> Forall (fun x => f x = true) l.
Proof.
  induction l as [|x l IH]; simpl; [by split|].
  rewrite andb_true_iff, IH, Forall_cons. done.
Qed.

Lemma ready_elems n ts : ready (S n) (TArr ts) -> Forall (ready n) ts.
Proof.
  intros (Hh & Hm & Hk). simpl in Hh, Hm, Hk.
  apply (height_elems _ n), Forall_fmap in Hh.
  apply forallb_Forall, Forall_fmap in Hm. apply forallb_Forall, Forall_fmap in Hk.
  rewrite Forall_forall in *. intros t Ht.
  specialize (Hh t Ht). specialize (Hm t Ht). specialize (Hk t Ht). simpl in *.
  by repeat split.
Qed.

Lemma ready_props n kts inh :
  ready (S n) (TObj kts inh) ->
  Forall (ready n) kts.*2
  /\ NoDup (kts.*1 ++ inh)
  /\ str "hasOwnProperty" ∉ kts.*1.
Proof.
  intros (Hh & Hm & Hk).
  change (shape_of (TObj kts inh))
    with (SObj ((fun kt => (kt.1, shape_of kt.2)) <$> kts) inh) in *.
  assert (((fun kt : jsstring * tree => (kt.1, shape_of kt.2)) <$> kts).*1 = kts.*1) as Hkeys.
  { rewrite <- list_fmap_compose. by apply list_fmap_ext. }
  apply height_props in Hh.
  change (negb (bool_decide (str "hasOwnProperty" ∈
                  ((fun kt : jsstring * tree => (kt.1, shape_of kt.2)) <$> kts).*1))
          && forallb (fun ks => method_visible ks.2)
               ((fun kt : jsstring * tree => (kt.1, shape_of kt.2)) <$> kts) = true) in Hm.
  change (bool_decide (NoDup (((fun kt : jsstring * tree => (kt.1, shape_of kt.2)) <$> kts).*1
                              ++ inh))
          && forallb (fun ks => distinct_keys ks.2)
               ((fun kt : jsstring * tree => (kt.1, shape_of kt.2)) <$> kts) = true) in Hk.
  rewrite Hkeys in Hm, Hk.
  apply andb_prop in Hm as [Hhop Hm]. apply andb_prop in Hk as [Hnd Hk].
  apply negb_true_iff, bool_decide_eq_false in Hhop. apply bool_decide_eq_true in Hnd.
  split; [|done].
  apply Forall_fmap in Hh. apply forallb_Forall, Forall_fmap in Hm.
  apply forallb_Forall, Forall_fmap in Hk. apply Forall_fmap.
  rewrite Forall_forall in *. intros kt Hkt.
  specialize (Hh kt Hkt). specialize (Hm kt Hkt). specialize (Hk kt Hkt). simpl in *.
  by repeat split.
Qed.

Lemma get_own_middle key v (done rest : list (jsstring * value)) :
  key ∉ done.*1 -> get_own key (done ++ (key, v) :: rest) = Some v.
Proof.
  induction done as [|[k w] done IH]; simpl; intros Hk.
  - by rewrite bool_decide_eq_true_2.
  - rewrite not_elem_of_cons in Hk. destruct Hk as [Hne Hk].
    rewrite bool_decide_eq_false_2 by done. by apply IH.
Qed.

Lemma set_own_middle key v v' (done rest : list (jsstring * value)) :
  key ∉ done.*1 ->
  set_own key v' (done ++ (key, v) :: rest) = done ++ (key, v') :: rest.
Proof.
  induction done as [|[k w] done IH]; simpl; intros Hk.
  - by rewrite bool_decide_eq_true_2.
  - rewrite not_elem_of_cons in Hk. destruct Hk as [Hne Hk].
    rewrite bool_decide_eq_false_2 by done. by rewrite IH.
Qed.

Lemma for_in_app f l h keys1 keys2 :
  for_in f l h (keys1 ++ keys2) = h1 ← for_in f l h keys1; for_in f l h1 keys2.
Proof.
  revert h. induction keys1 as [|key keys1 IH]; intros h; [done|].
  rewrite <- app_comm_cons, !for_in_cons.
  destruct (h !! l) as [[|own inh]|]; try done.
  destruct (has_own _ own); [done|].
  destruct (has_own key own); [|apply IH].
  destruct (get_own key own) as [v|]; [|apply IH].
  destruct (f h v) as [[h1 v']|]; [|done]. simpl.
  destruct (h1 !! l) as [[|own1 inh1]|]; first [done|apply IH].
Qed.

(** The loop changes nothing on the names that are no own properties. *)
Lemma for_in_skip f l h own inh keys :
  h !! l = Some (OPlain own inh) ->
  str "hasOwnProperty" ∉ own.*1 ->
  (forall key, key ∈ keys -> key ∉ own.*1) ->
  for_in f l h keys = Ok h.
Proof.
  intros Hl Hhop. induction keys as [|key keys IH]; intros Hkeys; [done|].
  rewrite for_in_cons, Hl.
  assert (has_own (str "hasOwnProperty") own = false) as ->.
  { destruct (has_own _ own) eqn:E; [|done]. by apply has_own_elem in E. }
  assert (has_own key own = false) as ->.
  { destruct (has_own key own) eqn:E; [|done]. apply has_own_elem in E.
    exfalso. apply (Hkeys key); [by left|done]. }
  apply IH. intros k Hk. apply Hkeys. by right.
Qed.

Lemma array_map_content lib f n :
  sanitizes_content lib f n ->
  forall vs ts h,
    Forall (ready n) ts ->
    all2 (denotes h) ts vs = true ->
    NoDup (footprints h ts vs) ->
    exists h' vs',
      array_map f h vs = Ok (h', vs')
      /\ all2 (denotes h') (sanitized lib <$> ts) vs' = true
      /\ length h <= length h'
      /\ (forall l, l < length h -> l ∉ footprints h ts vs -> h' !! l = h !! l)
      /\ NoDup (footprints h' (sanitized lib <$> ts) vs')
      /\ (forall l, l ∈ footprints h' (sanitized lib <$> ts) vs' ->
                    l ∈ footprints h ts vs \/ length h <= l).
Proof.
  intros Hf. induction vs as [|v vs IH]; intros [|t ts] h Hr Hd Hnd; try done.
  { exists h, []. repeat split; try done. intros l Hl. by left. }
  change (footprints h (t :: ts) (v :: vs))
    with (footprint h t v ++ footprints h ts vs) in *.
  simpl in Hd. apply andb_prop in Hd as [Hv Hvs].
  apply Forall_cons in Hr as [(Hh & Hm & Hk) Hrs].
  apply NoDup_app in Hnd as (Hnd1 & Hdisj & Hnd2).
  destruct (Hf h v t Hh Hm Hk Hv Hnd1)
    as (h1 & v' & Hrun & Hv' & Hlen1 & Hfr1 & Hnd1' & Hb1).
  destruct (elems_frame h h1 ts vs) as [Hvs1 Hfp1]; [|done|].
  { intros l Hl. apply Hfr1; [by eapply footprints_lt|].
    intros Hl'. by apply (Hdisj l). }
  destruct (IH ts h1 Hrs Hvs1) as (h2 & vs' & Hrun2 & Hvs' & Hlen2 & Hfr2 & Hnd2' & Hb2).
  { by rewrite Hfp1. }
  rewrite Hfp1 in Hfr2, Hb2.
  assert (forall l, l ∈ footprint h1 (sanitized lib t) v' -> l ∉ footprints h ts vs)
    as Hsep.
  { intros l Hl Hl'. destruct (Hb1 l Hl) as [?|?]; [by apply (Hdisj l)|].
    apply footprints_lt in Hl'. lia. }
  destruct (denotes_frame h1 h2 (sanitized lib t) v') as [Hv2 Hfp2]; [|done|].
  { intros l Hl. apply Hfr2; [by eapply footprint_lt|by apply Hsep]. }
  exists h2, (v' :: vs').
  split; [simpl; rewrite Hrun; simpl; by rewrite Hrun2|].
  split; [rewrite fmap_cons; simpl; rewrite Hv2; exact Hvs'|]. split; [lia|].
  rewrite fmap_cons.
  change (footprints h2 (sanitized lib t :: (sanitized lib <$> ts)) (v' :: vs'))
    with (footprint h2 (sanitized lib t) v' ++ footprints h2 (sanitized lib <$> ts) vs').
  rewrite Hfp2. repeat split.
  - intros l Hl Hnot. rewrite elem_of_app in Hnot.
    rewrite Hfr2, Hfr1; auto. lia.
  - apply NoDup_app. split; [done|]. split; [|done]. intros l Hl Hl'.
    destruct (Hb2 l Hl') as [?|?]; [by apply (Hsep l)|]. apply footprint_lt in Hl. lia.
  - intros l [Hl|Hl]%elem_of_app.
    + destruct (Hb1 l Hl); rewrite ?elem_of_app; auto.
    + destruct (Hb2 l Hl); rewrite ?elem_of_app; auto. right. lia.
Qed.
Lemma for_in_content lib f n l inh :
  sanitizes_content lib f n ->
  forall (todo : list (jsstring * value)) ts (done : list (jsstring * value)) h,
    h !! l = Some (OPlain (done ++ todo) inh) ->
    all2 (denotes h) ts todo.*2 = true ->
    NoDup (l :: footprints h ts todo.*2) ->
    NoDup (done ++ todo).*1 ->
    str "hasOwnProperty" ∉ (done ++ todo).*1 ->
    Forall (ready n) ts ->
    exists h' vs',
      for_in f l h todo.*1 = Ok h'
      /\ h' !! l = Some (OPlain (done ++ zip todo.*1 vs') inh)
      /\ all2 (denotes h') (sanitized lib <$> ts) vs' = true
      /\ length h <= length h'
      /\ (forall l0, l0 < length h -> l0 <> l -> l0 ∉ footprints h ts todo.*2 ->
                     h' !! l0 = h !! l0)
      /\ NoDup (footprints h' (sanitized lib <$> ts) vs')
      /\ (forall l0, l0 ∈ footprints h' (sanitized lib <$> ts) vs' ->
                     l0 ∈ footprints h ts todo.*2 \/ length h <= l0).
Proof.
  intros Hf. induction todo as [|[key v] todo IH]; intros [|t ts] done h Hl Hd Hnd Hkeys Hhop Hr;
    try (by simpl in Hd).
  { exists h, []. rewrite app_nil_r in Hl. simpl. rewrite app_nil_r.
    repeat split; try done; [constructor|intros l0 Hl0; by left]. }
  rewrite !fmap_cons in *. cbn [fst snd] in *.
  change (footprints h (t :: ts) (v :: todo.*2))
    with (footprint h t v ++ footprints h ts todo.*2) in *.
  simpl in Hd. apply andb_prop in Hd as [Hv Hvs].
  apply Forall_cons in Hr as [(Hh & Hm & Hk) Hrs].
  apply NoDup_cons in Hnd as [Hl_out Hnd].
  rewrite elem_of_app in Hl_out.
  apply NoDup_app in Hnd as (Hnd1 & Hdisj & Hnd2).
  rewrite fmap_app, fmap_cons in Hkeys, Hhop. cbn [fst] in Hkeys, Hhop.
  assert (key ∉ done.*1) as Hfresh.
  { apply NoDup_app in Hkeys as (_ & Hkeys & _). intros Hin.
    apply (Hkeys key Hin). by left. }
  assert (l < length h) as Hl_lt by (by eapply lookup_lt_Some).
  (* the call on the value of the property *)
  destruct (Hf h v t Hh Hm Hk Hv Hnd1)
    as (h1 & v' & Hrun & Hv' & Hlen1 & Hfr1 & Hnd1' & Hb1).
  assert (h1 !! l = Some (OPlain (done ++ (key, v) :: todo) inh)) as Hl1.
  { rewrite Hfr1; [done|done|]. intros Hin. apply Hl_out. by left. }
  (* the assignment to the property *)
  set (h2 := <[l := OPlain (done ++ (key, v') :: todo) inh]> h1).
  assert (length h2 = length h1) as Hlen2 by apply length_insert.
  assert (forall l0, l0 <> l -> h2 !! l0 = h1 !! l0) as Hfr2.
  { intros l0 Hne. by apply list_lookup_insert_ne. }
  assert (h2 !! l = Some (OPlain ((done ++ [(key, v')]) ++ todo) inh)) as Hl2.
  { unfold h2. rewrite list_lookup_insert_eq by lia. by rewrite <- app_assoc. }
  destruct (elems_frame h h2 ts todo.*2) as [Hvs2 Hfp2]; [|done|].
  { intros l0 Hl0. rewrite Hfr2, Hfr1; [done|by eapply footprints_lt| |].
    - intros Hin. by apply (Hdisj l0).
    - intros ->. apply Hl_out. by right. }
  destruct (IH ts (done ++ [(key, v')]) h2 Hl2 Hvs2)
    as (h' & vs' & Hrun' & Hl' & Hvs' & Hlen' & Hfr' & Hnd' & Hb'); [| | |done|].
  { rewrite Hfp2. apply NoDup_cons. split; [|done]. intros Hin. apply Hl_out. by right. }
  { by rewrite <- app_assoc, fmap_app. }
  { by rewrite <- app_assoc, fmap_app. }
  rewrite Hfp2 in Hfr', Hb'.
  assert (forall l0, l0 ∈ footprint h1 (sanitized lib t) v' ->
            l0 <> l /\ l0 ∉ footprints h ts todo.*2) as Hsep.
  { intros l0 Hl0. destruct (Hb1 l0 Hl0) as [Hin|Hge]; split.
    - intros ->. apply Hl_out. by left.
    - by apply (Hdisj l0).
    - lia.
    - intros Hin. apply footprints_lt in Hin. lia. }
  destruct (denotes_frame h1 h' (sanitized lib t) v') as [Hv2 Hfp']; [|done|].
  { intros l0 Hl0. destruct (Hsep l0 Hl0) as [Hne Hout].
    rewrite Hfr', Hfr2; [done|done| |done|done].
    rewrite Hlen2. by eapply footprint_lt. }
  exists h', (v' :: vs'). split.
  { rewrite for_in_cons, Hl.
    assert (has_own (str "hasOwnProperty") (done ++ (key, v) :: todo) = false) as ->.
    { destruct (has_own _ _) eqn:E; [|done]. apply has_own_elem in E.
      by rewrite fmap_app, fmap_cons in E. }
    assert (has_own key (done ++ (key, v) :: todo) = true) as ->.
    { apply has_own_elem. rewrite fmap_app, fmap_cons, elem_of_app, elem_of_cons. auto. }
    rewrite get_own_middle by done. rewrite Hrun. simpl. rewrite Hl1.
    rewrite set_own_middle by done. exact Hrun'. }
  split.
  { rewrite Hl'. by rewrite <- app_assoc. }
  split; [simpl; rewrite Hv2; exact Hvs'|].
  split; [lia|].
  change (footprints h' (sanitized lib t :: (sanitized lib <$> ts)) (v' :: vs'))
    with (footprint h' (sanitized lib t) v' ++ footprints h' (sanitized lib <$> ts) vs').
  rewrite Hfp'. repeat split.
  - intros l0 Hlt Hne Hnot. rewrite elem_of_app in Hnot.
    rewrite Hfr', Hfr2, Hfr1; auto. lia.
  - apply NoDup_app. split; [done|]. split; [|done]. intros l0 Hl0 Hl0'.
    destruct (Hb' l0 Hl0') as [?|?]; [by apply (Hsep l0)|].
    apply footprint_lt in Hl0. lia.
  - intros l0 [Hl0|Hl0]%elem_of_app.
    + destruct (Hb1 l0 Hl0); rewrite ?elem_of_app; auto.
    + destruct (Hb' l0 Hl0); rewrite ?elem_of_app; auto. right. lia.
Qed.

Lemma sanitize_content_at lib n : sanitizes_content lib (sanitize lib n) n.
Proof.
  induction n as [|n IH]; intros h v t Hh Hm Hk Hd Hnd; [lia|].
  destruct t as [| |b|m|s|ts|kts inh], v as [| |b'|m'|s'|l]; try done.
  - exists h, VUndefined. repeat split; auto; constructor.
  - exists h, VNull. repeat split; auto; constructor.
  - exists h, (VBool b'). repeat split; auto; constructor.
  - exists h, (VNum m'). repeat split; auto; constructor.
  - rewrite sanitize_string. simpl in Hd. apply bool_decide_eq_true in Hd as ->.
    eexists _, _. split; [done|]. simpl.
    repeat split; auto; first [by apply bool_decide_eq_true|constructor].
  - (* an array *)
    pose proof Hd as Hd'. simpl in Hd'.
    destruct (h !! l) as [[vs|own inh']|] eqn:Hl; try done.
    rewrite (footprint_array _ _ _ _ Hl) in *.
    apply NoDup_cons in Hnd as [Hl_out Hnd].
    destruct (array_map_content lib _ n IH vs ts h)
      as (h1 & vs' & Hrun & Hvs' & Hlen & Hfr & Hnd' & Hb); try done.
    { by apply ready_elems. }
    destruct (elems_frame h1 (h1 ++ [OArray vs']) (sanitized lib <$> ts) vs')
      as [Hvs2 Hfp2]; [|done|].
    { intros l0 Hl0. apply lookup_app_l. by eapply footprints_lt. }
    assert ((h1 ++ [OArray vs']) !! length h1 = Some (OArray vs')) as Hnew.
    { by apply list_lookup_middle. }
    exists (h1 ++ [OArray vs']), (VRef (length h1)).
    split; [simpl; rewrite Hl, Hrun; done|].
    change (sanitized lib (TArr ts)) with (TArr (sanitized lib <$> ts)).
    rewrite (footprint_array _ _ _ _ Hnew), Hfp2.
    split; [simpl; by rewrite Hnew|].
    split; [rewrite length_app; lia|]. repeat split.
    + intros l0 Hlt Hnot. rewrite not_elem_of_cons in Hnot.
      rewrite lookup_app_l by lia. apply Hfr; tauto.
    + apply NoDup_cons. split; [|done]. intros Hin. apply footprints_lt in Hin. lia.
    + intros l0 [->|Hl0]%elem_of_cons; [right; lia|].
      destruct (Hb l0 Hl0); [left; by right|by right].
  - (* an object *)
    apply denotes_object in Hd as (own & Hl & Hkeys & Hvs).
    rewrite (footprint_object _ _ _ _ _ _ Hl) in *.
    destruct (ready_props n kts inh) as (Hr & Hndk & Hhop); [done|].
    rewrite Hkeys in Hndk, Hhop.
    destruct (for_in_content lib _ n l inh IH own kts.*2 [] h)
      as (h1 & vs' & Hrun & Hl1 & Hvs' & Hlen & Hfr & Hnd' & Hb); try done.
    { apply NoDup_app in Hndk. tauto. }
    simpl in Hl1.
    assert (length vs' = length own.*1) as Hlen'.
    { apply all2_length in Hvs', Hvs. rewrite !length_fmap in *. lia. }
    assert (for_in (sanitize lib n) l h1 inh = Ok h1) as Hskip.
    { apply (for_in_skip _ _ _ (zip own.*1 vs') inh); [done| |].
      - rewrite fst_zip by lia. done.
      - rewrite fst_zip by lia. intros key Hkey Hin.
        apply NoDup_app in Hndk as (_ & Hndk & _). by apply (Hndk key). }
    exists h1, (VRef l).
    split; [simpl; rewrite Hl, for_in_app, Hrun; simpl; by rewrite Hskip|].
    change (sanitized lib (TObj kts inh))
      with (TObj ((fun kt => (kt.1, sanitized lib kt.2)) <$> kts) inh).
    assert (((fun kt : jsstring * tree => (kt.1, sanitized lib kt.2)) <$> kts).*1 = kts.*1)
      as Hk1.
    { rewrite <- list_fmap_compose. by apply list_fmap_ext. }
    assert (((fun kt : jsstring * tree => (kt.1, sanitized lib kt.2)) <$> kts).*2
            = sanitized lib <$> kts.*2) as Hk2.
    { rewrite <- !list_fmap_compose. by apply list_fmap_ext. }
    rewrite (footprint_object _ _ _ _ _ _ Hl1), Hk2, snd_zip by lia.
    apply NoDup_cons in Hnd as [Hl_out Hnd].
    split.
    { apply denotes_object. exists (zip own.*1 vs').
      rewrite Hk1, Hk2, fst_zip, snd_zip by lia. done. }
    split; [done|]. repeat split.
    + intros l0 Hlt Hnot. rewrite not_elem_of_cons in Hnot. apply Hfr; tauto.
    + apply NoDup_cons. split; [|done]. intros Hin.
      destruct (Hb l Hin) as [?|?]; [done|]. apply lookup_lt_Some in Hl. lia.
    + intros l0 [->|Hl0]%elem_of_cons; [left; by left|].
      destruct (Hb l0 Hl0); [left; by right|by right].
Qed.

(** X12. On a finite value that shares no object between two of its parts,
    and none of whose objects has two properties of one name or an own
    property called [hasOwnProperty], [sanitize] returns, given room for the
    nested calls, the value with every string at any depth trimmed and
    purified and nothing else changed; and it leaves alone every object of
    the store that is no part of the value. *)
Theorem sanitize_content lib depth h v t :
  denotes h t v = true ->
  NoDup (footprint h t v) ->
  distinct_keys (shape_of t) = true ->
  method_visible (shape_of t) = true ->
  height (shape_of t) < depth ->
  exists h' v',
    sanitize lib depth h v = Ok (h', v')
    /\ denotes h' (sanitized lib t) v' = true
    /\ forall l, l < length h -> l ∉ footprint h t v -> h' !! l = h !! l.
Proof.
  intros Hd Hnd Hk Hm Hh.
  destruct (sanitize_content_at lib depth h v t Hh Hm Hk Hd Hnd)
    as (h' & v' & H1 & H2 & _ & H3 & _).
  by exists h', v'.
Qed.

Lemma sanitize_content_witness :
  exists h' v',
    sanitize plain_lib 4 example_store (VRef 0) = Ok (h', v')
    /\ denotes h' (sanitized plain_lib example_tree) v' = true
    /\ forall l, l < length example_store ->
         l ∉ footprint example_store example_tree (VRef 0) ->
         h' !! l = example_store !! l.
Proof.
  apply sanitize_content.
  - vm_compute. reflexivity.
  - apply (bool_decide_eq_true_1 _). vm_compute. reflexivity.
  - vm_compute. reflexivity.
  - vm_compute. reflexivity.
  - simpl. lia.
Defined.

(** X13. On an array or object that contains itself [sanitize] never
    returns: when following first elements and first properties from it
    leads round in a circle, the call ends, however much room the call stack
    has, in the [RangeError] of the exhausted stack, with the store
    untouched. *)
Theorem sanitize_cyclic_overflows lib h ls l depth :
  loop_closed h ls = true ->
  l ∈ ls ->
  sanitize lib depth h (VRef l) = Throw h (RangeError stack_exceeded).
Proof.
  intros Hclosed. revert l. induction depth as [|depth IH]; intros l Hl; [done|].
  unfold loop_closed in Hclosed. rewrite forallb_forall in Hclosed.
  pose proof (Hclosed l) as Hstep.
  rewrite <- list_elem_of_In in Hstep. specialize (Hstep Hl).
  unfold first_ref in Hstep. cbn [sanitize].
  destruct (h !! l) as [[[|[| | | | |l'] rest]|[|[k [| | | | |l']] rest] inh]|] eqn:Hobj;
    try done.
  - apply bool_decide_eq_true in Hstep. cbn [array_map]. by rewrite (IH l' Hstep).
  - destruct (has_own (str "hasOwnProperty") ((k, VRef l') :: rest)) eqn:Hhop; [done|].
    apply bool_decide_eq_true in Hstep.
    rewrite fmap_cons. cbn [fst]. rewrite <- app_comm_cons, for_in_cons, Hobj, Hhop.
    assert (has_own k ((k, VRef l') :: rest) = true) as ->.
    { apply has_own_elem. rewrite fmap_cons. by left. }
    cbn [get_own fst]. rewrite bool_decide_eq_true_2 by done.
    by rewrite (IH l' Hstep).
Qed.

Lemma sanitize_cyclic_overflows_witness :
  sanitize plain_lib 1000 self_store (VRef 0)
  = Throw self_store (RangeError stack_exceeded).
Proof.
  apply (sanitize_cyclic_overflows plain_lib self_store [0] 0 1000).
  - vm_compute. reflexivity.
  - by left.
Defined.
